(** * csstype: the grammar reducer of [src/typer.ts]

    A shallow embedding of [typer.ts]: the entity tree delivered by the
    value-definition-syntax parser, the type descriptors, the dedup-insert
    operations [addString] ... [addType], the scalar-type catalog
    [basicDataTypes], the inclusion gate [shouldIncludeComponent] and the
    reducer [typing].

    What [typer.ts] imports is taken as a parameter of the development:
    the three mdn-data tables, the parser's [parse], and the JavaScript
    built-ins [Number(...)], [String(...)] and [===] on numbers. *)

From stdpp Require Import gmap strings list fin_maps.
From Stdlib Require Import Ascii String ZArith Lia.

Open Scope string_scope.
Open Scope list_scope.

(** ** The parser's data model

    [typer.ts] imports its input types from [./parser], which is not among
    the sources; they are modelled from the data model of the specification
    and from the fields and enum members [typer.ts] reads. *)

(** Modelled from the spec: the enum [Multiplier] of [./parser], the sign of
    a multiplier. *)
Inductive Multiplier :=
  | Asterisk          (* "*"     zero or more *)
  | PlusSign          (* "+"     one or more *)
  | QuestionMark      (* "?"     optional *)
  | CurlyBracet       (* "{a,b}" bounded range *)
  | HashMark          (* "#"     comma-repeated *)
  | ExclamationPoint. (* "!"     mandatory in group *)

(** Modelled from the spec: the type [MultiplierType] of [./parser], a sign
    with the bounds [min] and [max] of a range; [typer.ts] reads the bounds
    under [isCurlyBracetMultiplier] only. *)
Record MultiplierType := mkMultiplier {
  sign : Multiplier;
  min : Z;
  max : Z
}.

(** Modelled from the spec: the enum [Combinator] of [./parser], the four
    operators of the value definition syntax. *)
Inductive Combinator :=
  | Juxtaposition
  | DoubleAmpersand   (* "&&" *)
  | DoubleBar         (* "||" *)
  | SingleBar.        (* "|"  *)

(** Modelled from the spec: the type [EntityType] of [./parser], the union
    [ComponentType | ICombinator | IFunction].  The first three constructors
    are the entities with [entity === Entity.Component], one per value of
    [Component]; a component or a function may carry a multiplier, a
    combinator has none.

    An array [EntityType[]] is a list of objects: a reference (what
    [indexOf] compares) paired with the fields of the entity. *)
Inductive EntityType :=
  | Keyword (value : string) (multiplier : option MultiplierType)
  | DataType (value : string) (multiplier : option MultiplierType)
  | Group (entities : list (nat * EntityType))
          (multiplier : option MultiplierType)
  | CombinatorEntity (combinator : Combinator)
  | FunctionEntity (multiplier : option MultiplierType).

(** A reference and the entity it points to. *)
Abbreviation Object := (nat * EntityType)%type.

Definition isFunction (entity : EntityType) : bool :=
  match entity with FunctionEntity _ => true | _ => false end.

Definition isComponent (entity : EntityType) : bool :=
  match entity with
  | Keyword _ _ | DataType _ _ | Group _ _ => true
  | _ => false
  end.

Definition isCombinator (entity : EntityType) : bool :=
  match entity with CombinatorEntity _ => true | _ => false end.

(** [entity.multiplier], [null] on a combinator. *)
Definition multiplier_of (entity : EntityType) : option MultiplierType :=
  match entity with
  | Keyword _ m | DataType _ m | Group _ m | FunctionEntity m => m
  | CombinatorEntity _ => None
  end.

Definition isCurlyBracetMultiplier (multiplier : MultiplierType) : bool :=
  match sign multiplier with CurlyBracet => true | _ => false end.

Definition isMultiplied (multiplier : MultiplierType) : bool :=
  (isCurlyBracetMultiplier multiplier
     && ((1 <? min multiplier)%Z || (1 <? max multiplier)%Z))
  || match sign multiplier with
     | Asterisk | PlusSign | HashMark | ExclamationPoint => true
     | _ => false
     end.

Definition isMandatoryCombinator (combinator : Combinator) : bool :=
  match combinator with
  | DoubleAmpersand | Juxtaposition => true
  | _ => false
  end.

Definition isOptionalEntity (entity : EntityType) : bool :=
  match multiplier_of entity with
  | None => false
  | Some multiplier =>
      (isCurlyBracetMultiplier multiplier && (0 <? min multiplier)%Z)
      || match sign multiplier with
         | Asterisk | QuestionMark => true
         | _ => false
         end
  end.

(** [entity.multiplier && isMultiplied(entity.multiplier)] *)
Definition multiplied (multiplier : option MultiplierType) : bool :=
  match multiplier with
  | Some m => isMultiplied m
  | None => false
  end.

(** ** The JavaScript number built-ins

    [typer.ts] uses numbers through [Number(s)], [String(n)] and [===]
    only; they are an interface of the development. *)
Class JSNumber := {
  number : Type;
  js_Number : string → number;        (* Number(s) *)
  js_String : number → string;        (* String(n) *)
  strict_eq : number → number → bool  (* n === m *)
}.

(** ** Type descriptors *)

Section Descriptors.
Context `{JSNumber}.

(** [TypeType] at its default parameter: [IBasic], [IStringLiteral],
    [INumericLiteral] and [IDataType]; [Type.Alias] is not an inhabitant. *)
Inductive TypeType :=
  | TDataType (name : string)
  | TLength
  | TStringLiteral (literal : string)
  | TNumericLiteral (literal : number)
  | TString
  | TNumber.

(** [types.every(p)] is [forallb p types]. *)
Definition addLength (types : list TypeType) : list TypeType :=
  if forallb (fun type => match type with TLength => false | _ => true end) types
  then types ++ [TLength] else types.

Definition addString (types : list TypeType) : list TypeType :=
  if forallb (fun type => match type with TString => false | _ => true end) types
  then types ++ [TString] else types.

Definition addNumber (types : list TypeType) : list TypeType :=
  if forallb (fun type => match type with TNumber => false | _ => true end) types
  then types ++ [TNumber] else types.

Definition addStringLiteral (types : list TypeType) (literal : string)
  : list TypeType :=
  if forallb (fun type => match type with
                          | TStringLiteral l => negb (String.eqb l literal)
                          | _ => true
                          end) types
  then types ++ [TStringLiteral literal] else types.

Definition addNumericLiteral (types : list TypeType) (literal : number)
  : list TypeType :=
  if forallb (fun type => match type with
                          | TNumericLiteral l => negb (strict_eq l literal)
                          | _ => true
                          end) types
  then types ++ [TNumericLiteral literal] else types.

Definition addDataType (types : list TypeType) (name : string)
  : list TypeType :=
  if forallb (fun type => match type with
                          | TDataType n => negb (String.eqb n name)
                          | _ => true
                          end) types
  then types ++ [TDataType name] else types.

Definition addType (types : list TypeType) (type : TypeType) : list TypeType :=
  match type with
  | TLength => addLength types
  | TString => addString types
  | TNumber => addNumber types
  | TStringLiteral literal => addStringLiteral types literal
  | TNumericLiteral literal => addNumericLiteral types literal
  | TDataType name => addDataType types name
  end.

(** What a call of [typing] comes to: it returns an array of descriptors;
    or it faults, throwing a [TypeError] or returning [undefined] (what
    happens once [addType], handed a value that is no descriptor, has
    returned [undefined] for the accumulator); or its calls nest deeper than
    the depth allowed. *)
Inductive Outcome :=
  | Returns (types : list TypeType)
  | Faults
  | Deeper.

End Descriptors.

(** ** The [in] operator on a table

    The tables are plain objects: [name in table] holds of the keys of the
    table and of the names every object inherits from [Object.prototype];
    for an inherited name that is no key, [table[name]] is the inherited
    function (for [__proto__], the prototype object), which has no [type]
    and no [syntax]. *)
Definition Object_prototype : list string :=
  ["constructor"; "hasOwnProperty"; "isPrototypeOf"; "propertyIsEnumerable";
   "toLocaleString"; "toString"; "valueOf"; "__proto__";
   "__defineGetter__"; "__defineSetter__"; "__lookupGetter__";
   "__lookupSetter__"].

Definition inherited (name : string) : bool :=
  existsb (String.eqb name) Object_prototype.

(** ** String operations used on a data-type reference *)

(** [value.slice(1, -1)]: drop the first and the last character. *)
Definition slice_1_m1 (value : string) : string :=
  String.substring 1 (String.length value - 2) value.

(** The longest prefix without a single quote, and what follows it. *)
Fixpoint span_unquoted (s : string) : string * string :=
  match s with
  | EmptyString => (EmptyString, EmptyString)
  | String c s' =>
      if Ascii.eqb c "'" then (EmptyString, s)
      else let (run, rest) := span_unquoted s' in (String c run, rest)
  end.

(** [/'([^']+)'/.exec(value)], reduced to its capture group [property[1]]:
    at the leftmost quote that is followed by a non-empty run of characters
    other than the quote and then by a quote, that run. *)
Fixpoint exec_property (value : string) : option string :=
  match value with
  | EmptyString => None
  | String c s' =>
      if Ascii.eqb c "'" then
        match span_unquoted s' with
        | (String a run, String _ _) => Some (String a run)
        | _ => exec_property s'
        end
      else exec_property s'
  end.

(** ** The scalar-type catalog *)

(** [IBasic]: [{ type: Type.String | Type.Number | Type.Length }]. *)
Inductive IBasic := BasicString | BasicNumber | BasicLength.

Section Catalog.
(** [Object.keys(cssTypes)], and [syntaxes] as a map from a name to its
    syntax.  [name in syntaxes] is asked of the keys of [cssTypes] and of
    [hex-color] only, the data-type names of mdn-data, none of them a
    member of [Object.prototype]: it is membership among the keys. *)
Variable cssTypes : list string.
Variable syntaxes : gmap string string.

(** The reducer callback of [basicDataTypes]. *)
Definition basicDataTypes_step (dataTypes : gmap string IBasic) (name : string)
  : gmap string IBasic :=
  if String.eqb name "number" || String.eqb name "integer"
  then <[name := BasicNumber]> dataTypes
  else if String.eqb name "length"
  then <[name := BasicLength]> dataTypes
  else match syntaxes !! name with
       | None => <[name := BasicString]> dataTypes
       | Some _ => dataTypes
       end.

Definition basicDataTypes : gmap string IBasic :=
  fold_left basicDataTypes_step (cssTypes ++ ["hex-color"]) ∅.

End Catalog.

(** ** The inclusion gate *)

(** [entities.indexOf(entity)]: the first position that holds the object
    [o], or -1. *)
Fixpoint indexOf (entities : list Object) (o : nat) : Z :=
  match entities with
  | [] => (-1)%Z
  | (o', _) :: rest =>
      if Nat.eqb o' o then 0%Z
      else let i := indexOf rest o in
           if (i <? 0)%Z then (-1)%Z else (i + 1)%Z
  end.

(** [entities[i]], [undefined] outside the array. *)
Definition at_index (entities : list Object) (i : Z) : option Object :=
  if (i <? 0)%Z then None else entities !! Z.to_nat i.

Definition previousEntity (entities : list Object) (currentEntity : nat)
  : option Object :=
  at_index entities (indexOf entities currentEntity - 1).

Definition nextEntity (entities : list Object) (currentEntity : nat)
  : option Object :=
  at_index entities (indexOf entities currentEntity + 1).

(** The first loop of [shouldIncludeComponent], about to run at
    [i = n - 1]; [false] is [return false], [true] is leaving the loop. *)
Fixpoint scanLeft (entities : list Object) (n : nat) : bool :=
  match n with
  | O => true
  | S i =>
      match entities !! i with
      | Some (o, CombinatorEntity combinator) =>
          if isMandatoryCombinator combinator then
            match previousEntity entities o with
            | Some (_, previous) =>
                if isOptionalEntity previous then scanLeft entities i else false
            | None => scanLeft entities i
            end
          else true
      | _ => scanLeft entities i
      end
  end.

(** The second loop, about to run at [i] with [steps = length - i]. *)
Fixpoint scanRight (entities : list Object) (i steps : nat) : bool :=
  match steps with
  | O => true
  | S steps' =>
      match entities !! i with
      | Some (o, CombinatorEntity combinator) =>
          if isMandatoryCombinator combinator then
            match nextEntity entities o with
            | Some (_, next) =>
                if isOptionalEntity next then scanRight entities (S i) steps'
                else false
            | None => scanRight entities (S i) steps'
            end
          else true
      | _ => scanRight entities (S i) steps'
      end
  end.

(** [shouldIncludeComponent(component)], for the object [component]. *)
Definition shouldIncludeComponent (entities : list Object) (component : nat)
  : bool :=
  let index := indexOf entities component in
  scanLeft entities (Z.to_nat index)
  && scanRight entities (Z.to_nat (index + 1))
       (List.length entities - Z.to_nat (index + 1)).

(** ** The reducer *)

Section Typing.
Context `{JSNumber}.
Variable cssTypes : list string.
Variable syntaxes : gmap string string.
(** [properties]: a property name to [properties[name].syntax]. *)
Variable properties : gmap string string.
Variable parse : string → list Object.
(** [parse(undefined)], [None] when it throws: the syntax handed to [parse]
    for a quoted name that [properties] only inherits. *)
Variable parse_undefined : option (list Object).

Definition basic_type (b : IBasic) : TypeType :=
  match b with
  | BasicString => TString
  | BasicNumber => TNumber
  | BasicLength => TLength
  end.

(** [for (const type of inner) types = addType(types, type)] *)
Definition addTypes (types inner : list TypeType) : list TypeType :=
  fold_left addType inner types.

(** [for (const type of typing(...)) types = addType(types, type)], on the
    outcome of the inner call; iterating over [undefined] throws. *)
Definition merge (types : list TypeType) (inner : Outcome) : Outcome :=
  match inner with
  | Returns inner => Returns (addTypes types inner)
  | Faults => Faults
  | Deeper => Deeper
  end.

(** An included component; [rec] is the recursive call of [typing]. *)
Definition typingComponent (rec : list Object → Outcome)
    (entity : EntityType) (types : list TypeType) : Outcome :=
  match entity with
  | Keyword value _ =>
      if String.eqb (js_String (js_Number value)) value
      then Returns (addNumericLiteral types (js_Number value))
      else Returns (addStringLiteral types value)
  | DataType v multiplier =>
      let value := slice_1_m1 v in
      match exec_property value with
      | Some name =>
          (* name in properties *)
          match properties !! name with
          | Some syntax =>
              let types := if multiplied multiplier then addString types
                           else types in
              merge types (rec (parse syntax))
          | None =>
              if inherited name then
                let types := if multiplied multiplier then addString types
                             else types in
                match parse_undefined with
                | Some entities => merge types (rec entities)
                | None => Faults
                end
              else Returns (addString types)
          end
      | None =>
          (* value in basicDataTypes *)
          match basicDataTypes cssTypes syntaxes !! value with
          | Some basic => Returns (addType types (basic_type basic))
          | None =>
              if inherited value
              then Faults (* addType returns undefined *)
              else Returns (addDataType types value)
          end
      end
  | Group entities multiplier =>
      let types := if multiplied multiplier then addString types else types in
      merge types (rec entities)
  | _ => Returns types
  end.

(** The body of the [for] loop at the object [entity]. *)
Definition typingEntity (rec : list Object → Outcome)
    (entities : list Object) (entity : Object) (types : list TypeType)
  : Outcome :=
  if isComponent (snd entity) then
    if shouldIncludeComponent entities (fst entity)
    then typingComponent rec (snd entity) types
    else Returns types
  else match snd entity with
       | CombinatorEntity combinator =>
           if match combinator with DoubleBar => true | _ => false end
              || isMandatoryCombinator combinator
           then Returns (addString types) else Returns types
       | FunctionEntity _ => Returns (addString types)
       | _ => Returns types
       end.

(** The [for] loop, with [rest] still to visit. *)
Fixpoint typingLoop (rec : list Object → Outcome)
    (entities rest : list Object) (types : list TypeType) : Outcome :=
  match rest with
  | [] => Returns types
  | entity :: rest' =>
      match typingEntity rec entities entity types with
      | Returns types' => typingLoop rec entities rest' types'
      | Faults => Faults
      | Deeper => Deeper
      end
  end.

(** [typing]: [fuel] bounds the depth of the recursive calls. *)
Fixpoint typing (fuel : nat) (entities : list Object) : Outcome :=
  match fuel with
  | O => Deeper
  | S fuel' => typingLoop (typing fuel') entities entities []
  end.

End Typing.

(** ** An instance of the number built-ins

    Numbers restricted to NaN and the integers, enough to run the reducer on
    grammars whose keywords are identifiers or integer literals:
    [Number(s)] is the integer [s] denotes when [s] is empty or an optional
    sign followed by decimal digits, and NaN when [s] holds no numeric
    literal; [String(n)] is the decimal notation of [n]; [===] is false on
    NaN.  Fractions, exponents and the infinities are left out. *)
Module JSInt.

Inductive int_number := NaN | Int (z : Z).

Definition digit_of (c : ascii) : option Z :=
  let n := Z.of_nat (nat_of_ascii c) in
  if ((48 <=? n) && (n <=? 57))%Z then Some (n - 48)%Z else None.

Fixpoint digits_value (s : string) (acc : Z) : option Z :=
  match s with
  | EmptyString => Some acc
  | String c s' =>
      match digit_of c with
      | Some d => digits_value s' (10 * acc + d)%Z
      | None => None
      end
  end.

Definition unsigned_value (s : string) : option Z :=
  match s with
  | EmptyString => None
  | _ => digits_value s 0%Z
  end.

Definition to_number (s : string) : int_number :=
  match s with
  | EmptyString => Int 0
  | String c s' =>
      if Ascii.eqb c "+" then
        match unsigned_value s' with Some z => Int z | None => NaN end
      else if Ascii.eqb c "-" then
        match unsigned_value s' with Some z => Int (- z) | None => NaN end
      else
        match unsigned_value s with Some z => Int z | None => NaN end
  end.

Definition digit_char (d : Z) : ascii := ascii_of_nat (Z.to_nat (48 + d)).

Fixpoint digits_of (fuel : nat) (n : Z) (acc : string) : string :=
  match fuel with
  | O => acc
  | S fuel' =>
      let acc' := String (digit_char (n mod 10)) acc in
      if (n <? 10)%Z then acc' else digits_of fuel' (n / 10) acc'
  end.

Definition to_string (n : int_number) : string :=
  match n with
  | NaN => "NaN"
  | Int z =>
      let a := Z.abs z in
      let ds := digits_of (S (Z.to_nat (Z.log2 a))) a EmptyString in
      if (z <? 0)%Z then String "-" ds else ds
  end.

Definition equal (a b : int_number) : bool :=
  match a, b with
  | Int x, Int y => (x =? y)%Z
  | _, _ => false
  end.

Definition runtime : JSNumber :=
  {| number := int_number;
     js_Number := to_number;
     js_String := to_string;
     strict_eq := equal |}.

(** The numeric literal of an integer, and the one of NaN. *)
Definition literal (z : Z) : @TypeType runtime := @TNumericLiteral runtime (Int z).
Definition literal_NaN : @TypeType runtime := @TNumericLiteral runtime NaN.

End JSInt.

(** ** Measures of an entity tree *)

(** The catalog entry of a listed name, in the words of the catalog's
    description: [number] and [integer] are Number, [length] is Length, any
    other name is String unless it has a syntax of its own. *)
Definition catalog_entry (syntaxes : gmap string string) (name : string)
  : option IBasic :=
  if String.eqb name "number" || String.eqb name "integer" then Some BasicNumber
  else if String.eqb name "length" then Some BasicLength
  else match syntaxes !! name with
       | None => Some BasicString
       | Some _ => None
       end.

(** How deep groups are nested in an entity. *)
Fixpoint entity_nesting (entity : EntityType) : nat :=
  match entity with
  | Group entities _ =>
      S (foldr Nat.max 0
           (map (fun object : Object => let (_, e) := object in
                                        entity_nesting e) entities))
  | _ => 0
  end.

Definition nesting (entities : list Object) : nat :=
  foldr Nat.max 0
    (map (fun object : Object => let (_, e) := object in entity_nesting e)
       entities).

(** The property names quoted by the data-type references of an entity,
    groups included. *)
Fixpoint entity_references (entity : EntityType) : list string :=
  match entity with
  | DataType v _ =>
      match exec_property (slice_1_m1 v) with
      | Some name => [name]
      | None => []
      end
  | Group entities _ =>
      List.concat
        (map (fun object : Object => let (_, e) := object in
                                     entity_references e) entities)
  | _ => []
  end.

Definition references (entities : list Object) : list string :=
  List.concat
    (map (fun object : Object => let (_, e) := object in entity_references e)
       entities).

(** The property reference graph is acyclic: [rank] decreases along every
    reference from the grammar of a property to a property of the dataset. *)
Definition ranked (properties : gmap string string)
    (parse : string → list Object) (rank : string → nat) : Prop :=
  ∀ p syntax q,
    properties !! p = Some syntax →
    In q (references (parse syntax)) →
    is_Some (properties !! q) →
    (rank q < rank p)%nat.

(** Every reference of [entities] into the dataset has rank below [k]: the
    reference chains that start in [entities] have at most [k] properties. *)
Definition chain_below (properties : gmap string string)
    (rank : string → nat) (k : nat) (entities : list Object) : Prop :=
  ∀ q, In q (references entities) → is_Some (properties !! q)
    → (rank q < k)%nat.

(** Every grammar of the dataset nests its groups at most [d] deep. *)
Definition nesting_below (properties : gmap string string)
    (parse : string → list Object) (d : nat) : Prop :=
  ∀ p syntax, properties !! p = Some syntax → (nesting (parse syntax) <= d)%nat.

(** ** Sample datasets and grammars

    A small world to run the reducer in: three elementary names (one of
    them with a composite syntax of its own), three properties, and the
    entity sequences the parser yields for their syntaxes. *)
Module Sample.

Definition cssTypes : list string := ["number"; "length"; "string"; "ratio"].

Definition syntaxes : gmap string string :=
  {[ "ratio" := "<integer> / <integer>" ]}.

Definition properties : gmap string string :=
  {[ "tint" := "red | blue";
     "outer" := "[ <'inner'> ]";
     "inner" := "[ a ]" ]}.

Definition kw (value : string) : EntityType := Keyword value None.

(** The objects of a sequence, each a fresh reference: its position. *)
Definition fresh (entities : list EntityType) : list Object :=
  imap (fun i entity => (i, entity)) entities.

Definition parse (syntax : string) : list Object :=
  if String.eqb syntax "red | blue"
  then fresh [kw "red"; CombinatorEntity SingleBar; kw "blue"]
  else if String.eqb syntax "[ <'inner'> ]"
  then fresh [Group (fresh [DataType "<'inner'>" None]) None]
  else if String.eqb syntax "[ a ]"
  then fresh [Group (fresh [kw "a"]) None]
  else [].

(** [parse(undefined)] in this world: the keyword [undefined]. *)
Definition parse_undefined : option (list Object) :=
  Some (fresh [kw "undefined"]).

(** The reducer in this world. *)
Definition typing (fuel : nat) (entities : list Object)
  : @Outcome JSInt.runtime :=
  @typing JSInt.runtime cssTypes syntaxes properties parse parse_undefined
    fuel entities.

Definition curly (a b : Z) : option MultiplierType :=
  Some (mkMultiplier CurlyBracet a b).

Definition mult (s : Multiplier) : option MultiplierType :=
  Some (mkMultiplier s 0 0).

Definition rank (name : string) : nat :=
  if String.eqb name "outer" then 1 else 0.

(** Entity sequences, named by the grammar they come from. *)

(* a f() *)
Definition function_after_keyword : list Object :=
  fresh [kw "a"; CombinatorEntity Juxtaposition; FunctionEntity None].

(* a || b *)
Definition either_or_both : list Object :=
  fresh [kw "a"; CombinatorEntity DoubleBar; kw "b"].

(* 42 | auto *)
Definition number_or_auto : list Object :=
  fresh [kw "42"; CombinatorEntity SingleBar; kw "auto"].

(* NaN | NaN *)
Definition nan_twice : list Object :=
  fresh [kw "NaN"; CombinatorEntity SingleBar; kw "NaN"].

(* a{2,3} b *)
Definition ranged_then_b : list Object :=
  fresh [Keyword "a" (curly 2 3); CombinatorEntity Juxtaposition; kw "b"].

(* a{0,1} b *)
Definition optional_range_then_b : list Object :=
  fresh [Keyword "a" (curly 0 1); CombinatorEntity Juxtaposition; kw "b"].

(* a b? *)
Definition a_then_optional_b : list Object :=
  fresh [kw "a"; CombinatorEntity Juxtaposition;
         Keyword "b" (mult QuestionMark)].

(* a? b c *)
Definition three_juxtaposed : list Object :=
  fresh [Keyword "a" (mult QuestionMark); CombinatorEntity Juxtaposition;
         kw "b"; CombinatorEntity Juxtaposition; kw "c"].

(* a? b c, with one combinator object at both places *)
Definition three_juxtaposed_shared : list Object :=
  [(0, Keyword "a" (mult QuestionMark)); (1, CombinatorEntity Juxtaposition);
   (2, kw "b"); (1, CombinatorEntity Juxtaposition); (4, kw "c")].

(* auto+ *)
Definition repeated_keyword : list Object :=
  fresh [Keyword "auto" (mult PlusSign)].

(* <length>+ *)
Definition repeated_length : list Object :=
  fresh [DataType "<length>" (mult PlusSign)].

(* <'tint'>+ *)
Definition repeated_tint : list Object :=
  fresh [DataType "<'tint'>" (mult PlusSign)].

(* [ a | 1 ]# *)
Definition repeated_group : list Object :=
  fresh [Group (fresh [kw "a"; CombinatorEntity SingleBar; kw "1"])
           (mult HashMark)].

(* <'nope'> *)
Definition unknown_property : list Object :=
  fresh [DataType "<'nope'>" None].

(* <ratio> *)
Definition composite_name : list Object :=
  fresh [DataType "<ratio>" None].

(* [ <'outer'> ] *)
Definition nested_reference : list Object :=
  fresh [Group (fresh [DataType "<'outer'>" None]) None].

End Sample.

(** ** Notions the properties are stated with *)

(** An optional multiplier in the words of the gate's description: a range
    with [min] 0, "*", or "?". *)
Definition optional_multiplier (entity : EntityType) : bool :=
  match multiplier_of entity with
  | None => false
  | Some multiplier =>
      match sign multiplier with
      | CurlyBracet => (min multiplier =? 0)%Z
      | Asterisk | QuestionMark => true
      | _ => false
      end
  end.

Section Notions.
Context `{JSNumber}.

(** [types'] is [types] with descriptors appended. *)
Definition extends (types types' : list TypeType) : Prop :=
  ∃ added, types' = types ++ added.

(** A descriptor on which the comparison of [addType] is reflexive: all of
    them but a numeric literal that is not [===] to itself. *)
Definition self_equal (t : TypeType) : Prop :=
  match t with
  | TNumericLiteral n => strict_eq n n = true
  | _ => True
  end.

(** The comparison the insertions make: same variant, and [===] literals or
    names. *)
Definition same_key (t u : TypeType) : bool :=
  match t, u with
  | TLength, TLength | TString, TString | TNumber, TNumber => true
  | TStringLiteral a, TStringLiteral b => String.eqb a b
  | TNumericLiteral a, TNumericLiteral b => strict_eq a b
  | TDataType a, TDataType b => String.eqb a b
  | _, _ => false
  end.

(** No descriptor compares equal to a later one. *)
Definition distinct_keys (types : list TypeType) : Prop :=
  ForallOrdPairs (fun t u => same_key t u = false) types.

(** A numeric literal that is [Number(s)] of the text [s] it prints as. *)
Definition canonical (t : TypeType) : Prop :=
  match t with
  | TNumericLiteral n => js_Number (js_String n) = n
  | _ => True
  end.

End Notions.

(** ** Notions of the further properties *)

(** The string holds a single quote. *)
Fixpoint has_quote (s : string) : bool :=
  match s with
  | EmptyString => false
  | String c s' => Ascii.eqb c "'" || has_quote s'
  end.

(** A keyword or the combinator "|": the entities of an enumeration. *)
Definition is_enumeration (entity : EntityType) : bool :=
  match entity with
  | Keyword _ _ | CombinatorEntity SingleBar => true
  | _ => false
  end.

(** Left of position [n], before any "|" or "||", a mandatory combinator
    has a neighbor before it that [isOptionalEntity] rejects. *)
Definition blocked_left (entities : list Object) (n : nat) : Prop :=
  ∃ i o c o' previous,
    (i < n)%nat ∧
    entities !! i = Some (o, CombinatorEntity c) ∧
    isMandatoryCombinator c = true ∧
    previousEntity entities o = Some (o', previous) ∧
    isOptionalEntity previous = false ∧
    ∀ j o'' c', (i < j < n)%nat →
      entities !! j = Some (o'', CombinatorEntity c') →
      isMandatoryCombinator c' = true.

(** Among the [steps] positions from [i] on, before any "|" or "||", a
    mandatory combinator has a neighbor after it that [isOptionalEntity]
    rejects. *)
Definition blocked_right (entities : list Object) (i steps : nat) : Prop :=
  ∃ j o c o' next,
    (i <= j < i + steps)%nat ∧
    entities !! j = Some (o, CombinatorEntity c) ∧
    isMandatoryCombinator c = true ∧
    nextEntity entities o = Some (o', next) ∧
    isOptionalEntity next = false ∧
    ∀ j' o'' c', (i <= j' < j)%nat →
      entities !! j' = Some (o'', CombinatorEntity c') →
      isMandatoryCombinator c' = true.

(** A component whose reduction calls the reducer again: a group, or a
    data-type reference that quotes a name [in] the dataset, a key or a
    name of [Object.prototype]. *)
Definition recurses (properties : gmap string string) (entity : EntityType)
  : bool :=
  match entity with
  | Group _ _ => true
  | DataType v _ =>
      match exec_property (slice_1_m1 v) with
      | Some name =>
          bool_decide (is_Some (properties !! name)) || inherited name
      | None => false
      end
  | _ => false
  end.

(** No data-type reference of the entity, groups included, names a member
    of [Object.prototype]. *)
Fixpoint entity_plain (entity : EntityType) : bool :=
  match entity with
  | DataType v _ =>
      negb (inherited (match exec_property (slice_1_m1 v) with
                       | Some name => name
                       | None => slice_1_m1 v
                       end))
  | Group entities _ =>
      forallb (fun object : Object => let (_, e) := object in entity_plain e)
        entities
  | _ => true
  end.

Definition plain (entities : list Object) : bool :=
  forallb (fun object : Object => let (_, e) := object in entity_plain e)
    entities.

(** The reference chains that start in [entities] have at most [k]
    properties of the dataset, and the parsed syntax of every property on
    them satisfies [P]. *)
Fixpoint grammars_within (properties : gmap string string)
    (parse : string → list Object) (P : list Object → Prop) (k : nat)
    (entities : list Object) : Prop :=
  ∀ q syntax,
    In q (references entities) → properties !! q = Some syntax →
    match k with
    | O => False
    | S k' =>
        P (parse syntax) ∧ grammars_within properties parse P k' (parse syntax)
    end.

Section FurtherNotions.
Context `{JSNumber}.

(** Any descriptor but String. *)
Definition not_String (t : TypeType) : bool :=
  match t with
  | TString => false
  | _ => true
  end.

(** A literal descriptor. *)
Definition is_literal (t : TypeType) : bool :=
  match t with
  | TStringLiteral _ | TNumericLiteral _ => true
  | _ => false
  end.

(** A string literal whose text does not read back from
    [String(Number(text))]. *)
Definition textual (t : TypeType) : Prop :=
  match t with
  | TStringLiteral s => String.eqb (js_String (js_Number s)) s = false
  | _ => True
  end.

End FurtherNotions.

(** Entity sequences for the further properties. *)
Module Further.

(* a? && b+ *)
Definition optional_and_repeated : list Object :=
  Sample.fresh [Keyword "a" (Sample.mult QuestionMark);
                CombinatorEntity DoubleAmpersand;
                Keyword "b" (Sample.mult PlusSign)].

(* [ red | 1 ] *)
Definition plain_group : list Object :=
  Sample.fresh
    [Group (Sample.fresh [Sample.kw "red"; CombinatorEntity SingleBar;
                          Sample.kw "1"]) None].

(* <'tint'> *)
Definition plain_tint : list Object :=
  Sample.fresh [DataType "<'tint'>" None].

(* a | 7 | a *)
Definition enumeration : list Object :=
  Sample.fresh [Sample.kw "a"; CombinatorEntity SingleBar; Sample.kw "7";
                CombinatorEntity SingleBar; Sample.kw "a"].

(* <toString> *)
Definition inherited_name : list Object :=
  Sample.fresh [DataType "<toString>" None].

(* <toString> | a *)
Definition inherited_name_or_a : list Object :=
  Sample.fresh [DataType "<toString>" None; CombinatorEntity SingleBar;
                Sample.kw "a"].

(* <'constructor'> *)
Definition inherited_property : list Object :=
  Sample.fresh [DataType "<'constructor'>" None].

(* a && b *)
Definition a_and_b : list Object :=
  Sample.fresh [Sample.kw "a"; CombinatorEntity DoubleAmpersand;
                Sample.kw "b"].

(* a b *)
Definition a_then_b : list Object :=
  Sample.fresh [Sample.kw "a"; CombinatorEntity Juxtaposition; Sample.kw "b"].

(* [ auto ]+ *)
Definition repeated_group_of_keyword : list Object :=
  Sample.fresh [Group (Sample.fresh [Sample.kw "auto"])
                  (Sample.mult PlusSign)].

(** A dataset whose only property quotes itself. *)
Definition cyclic_properties : gmap string string :=
  {[ "loop" := "<'loop'>" ]}.

Definition cyclic_parse (syntax : string) : list Object :=
  if String.eqb syntax "<'loop'>"
  then Sample.fresh [DataType "<'loop'>" None]
  else [].

(* a <'loop'> *)
Definition loop_after_keyword : list Object :=
  Sample.fresh [Sample.kw "a"; CombinatorEntity Juxtaposition;
                DataType "<'loop'>" None].

End Further.

(** * Properties *)

(** ** Dedup-insert *)

Lemma every_false {A : Type} (p : A → bool) (l : list A) :
  forallb p l = false → ∃ x, In x l ∧ p x = false.
Proof.
  induction l as [| a l IH]; simpl; [discriminate |].
  destruct (p a) eqn:Ea; simpl.
  - intros E. destruct (IH E) as [x [Hx Hp]]. exists x. auto.
  - intros _. exists a. auto.
Qed.

Section DescriptorLemmas.
Context `{JSNumber}.

Lemma addType_cases (types : list TypeType) (t : TypeType) :
  addType types t = types ∨ addType types t = types ++ [t].
Proof.
  destruct t; simpl;
    [ unfold addDataType | unfold addLength | unfold addStringLiteral
    | unfold addNumericLiteral | unfold addString | unfold addNumber ];
    match goal with |- context [forallb ?f ?l] => destruct (forallb f l) end;
    auto.
Qed.

Lemma addString_cases (types : list TypeType) :
  addString types = types ∨ addString types = types ++ [TString].
Proof. exact (addType_cases types TString). Qed.

Lemma addType_incl (types : list TypeType) (t u : TypeType) :
  In u types → In u (addType types t).
Proof.
  intros Hu. destruct (addType_cases types t) as [-> | ->]; [assumption |].
  apply in_or_app; now left.
Qed.

Lemma addTypes_incl (inner types : list TypeType) (u : TypeType) :
  In u types → In u (addTypes types inner).
Proof.
  unfold addTypes. revert types.
  induction inner as [| t inner IH]; intros types Hu; simpl; [assumption |].
  apply IH, addType_incl, Hu.
Qed.

Lemma addString_In (types : list TypeType) : In TString (addString types).
Proof.
  unfold addString.
  destruct (forallb _ types) eqn:E.
  - apply in_or_app; right; now left.
  - apply every_false in E.
    destruct E as [x [Hx Hf]]. destruct x; try discriminate. exact Hx.
Qed.

Lemma addStringLiteral_In (types : list TypeType) (literal : string) :
  In (TStringLiteral literal) (addStringLiteral types literal).
Proof.
  unfold addStringLiteral.
  destruct (forallb _ types) eqn:E.
  - apply in_or_app; right; now left.
  - apply every_false in E.
    destruct E as [x [Hx Hf]]. destruct x; try discriminate.
    apply Bool.negb_false_iff, String.eqb_eq in Hf. now subst.
Qed.

Lemma addDataType_In (types : list TypeType) (name : string) :
  In (TDataType name) (addDataType types name).
Proof.
  unfold addDataType.
  destruct (forallb _ types) eqn:E.
  - apply in_or_app; right; now left.
  - apply every_false in E.
    destruct E as [x [Hx Hf]]. destruct x; try discriminate.
    apply Bool.negb_false_iff, String.eqb_eq in Hf. now subst.
Qed.

(** Inserting twice is inserting once, for such a descriptor. *)
Lemma addType_idempotent (types : list TypeType) (t : TypeType) :
  self_equal t → addType (addType types t) t = addType types t.
Proof.
  intros Ht.
  destruct t; simpl in *;
    [ unfold addDataType | unfold addLength | unfold addStringLiteral
    | unfold addNumericLiteral | unfold addString | unfold addNumber ];
    match goal with |- context [forallb ?f types] =>
      destruct (forallb f types) eqn:E end;
    rewrite ?E; try reflexivity;
    rewrite forallb_app, E; simpl;
    rewrite ?String.eqb_refl, ?Ht; reflexivity.
Qed.

End DescriptorLemmas.

(** ** The loop of the reducer *)

Section ReducerLemmas.
Context `{JSNumber}.
Variable cssTypes : list string.
Variable syntaxes : gmap string string.
Variable properties : gmap string string.
Variable parse : string → list Object.
Variable parse_undefined : option (list Object).

Local Abbreviation typingComponent :=
  (typingComponent cssTypes syntaxes properties parse parse_undefined).
Local Abbreviation typingEntity :=
  (typingEntity cssTypes syntaxes properties parse parse_undefined).
Local Abbreviation typingLoop :=
  (typingLoop cssTypes syntaxes properties parse parse_undefined).
Local Abbreviation typing :=
  (typing cssTypes syntaxes properties parse parse_undefined).

Lemma extends_refl (types : list TypeType) : extends types types.
Proof. exists []. now rewrite app_nil_r. Qed.

Lemma extends_trans (a b c : list TypeType) :
  extends a b → extends b c → extends a c.
Proof. intros [x ->] [y ->]. exists (x ++ y). now rewrite app_assoc. Qed.

Lemma extends_In (a b : list TypeType) (t : TypeType) :
  extends a b → In t a → In t b.
Proof. intros [x ->] Ht. apply in_or_app; now left. Qed.

Lemma addType_extends (types : list TypeType) (t : TypeType) :
  extends types (addType types t).
Proof.
  destruct (addType_cases types t) as [-> | ->];
    [apply extends_refl | now exists [t]].
Qed.

Lemma addTypes_extends (inner types : list TypeType) :
  extends types (addTypes types inner).
Proof.
  unfold addTypes. revert types.
  induction inner as [| t inner IH]; intros types; simpl.
  - apply extends_refl.
  - eapply extends_trans; [apply addType_extends | apply IH].
Qed.

Lemma fallback_extends (b : bool) (types : list TypeType) :
  extends types (if b then addString types else types).
Proof.
  destruct b; [exact (addType_extends types TString) | apply extends_refl].
Qed.

Lemma merge_Returns (types : list TypeType) (inner : Outcome)
    (types' : list TypeType) :
  merge types inner = Returns types' →
  ∃ r, inner = Returns r ∧ types' = addTypes types r.
Proof.
  destruct inner as [r | |]; simpl; intros [= <-]. now exists r.
Qed.

Lemma merge_extends (b : bool) (types : list TypeType) (inner : Outcome)
    (types' : list TypeType) :
  merge (if b then addString types else types) inner = Returns types' →
  extends types types'.
Proof.
  intros Hm. apply merge_Returns in Hm as (r & _ & ->).
  eapply extends_trans; [apply fallback_extends | apply addTypes_extends].
Qed.

Lemma typingComponent_extends rec entity types types' :
  typingComponent rec entity types = Returns types' → extends types types'.
Proof.
  destruct entity as [value m | v m | inner m | c | m]; simpl.
  - destruct (String.eqb _ value); intros [= <-].
    + exact (addType_extends types (TNumericLiteral _)).
    + exact (addType_extends types (TStringLiteral _)).
  - destruct (exec_property _) as [name |].
    + destruct (properties !! name) as [syntax |].
      * apply merge_extends.
      * destruct (inherited name).
        -- destruct parse_undefined as [entities |]; [| discriminate].
           apply merge_extends.
        -- intros [= <-]. exact (addType_extends types TString).
    + destruct (basicDataTypes _ _ !! _) as [b |].
      * intros [= <-]. apply addType_extends.
      * destruct (inherited _); intros [= <-].
        exact (addType_extends types (TDataType _)).
  - apply merge_extends.
  - intros [= <-]. apply extends_refl.
  - intros [= <-]. apply extends_refl.
Qed.

Lemma typingEntity_extends rec entities entity types types' :
  typingEntity rec entities entity types = Returns types' →
  extends types types'.
Proof.
  unfold typingEntity. destruct entity as [o entity]. simpl.
  destruct (isComponent entity) eqn:Ec.
  - destruct (shouldIncludeComponent entities o).
    + apply typingComponent_extends.
    + intros [= <-]. apply extends_refl.
  - destruct entity as [value m | v m | inner m | c | m]; try discriminate.
    + destruct (_ || _); intros [= <-];
        [exact (addType_extends types TString) | apply extends_refl].
    + intros [= <-]. exact (addType_extends types TString).
Qed.

Lemma typingLoop_extends rec entities rest types r :
  typingLoop rec entities rest types = Returns r → extends types r.
Proof.
  revert types.
  induction rest as [| entity rest IH]; intros types; simpl.
  - intros [= <-]. apply extends_refl.
  - destruct (typingEntity rec entities entity types) as [types' | |] eqn:E;
      try discriminate.
    intros Hr. eapply extends_trans.
    + eapply typingEntity_extends, E.
    + eapply IH, Hr.
Qed.

(** The loop reaches every object: each one of [rest] is reduced by the loop
    body, from an accumulator that satisfies any invariant [P] of the body,
    and what the body yields stays in the result. *)
Lemma typingLoop_at (P : list TypeType → Prop) rec entities :
  (∀ entity types types',
     P types → typingEntity rec entities entity types = Returns types' →
     P types') →
  ∀ rest types r entity,
    P types →
    typingLoop rec entities rest types = Returns r →
    In entity rest →
    ∃ before after,
      P before ∧
      typingEntity rec entities entity before = Returns after ∧
      extends after r.
Proof.
  intros Hstep.
  induction rest as [| e rest IH]; intros types r entity HP Hr Hin.
  - contradiction.
  - simpl in Hr.
    destruct (typingEntity rec entities e types) as [types' | |] eqn:E;
      try discriminate.
    destruct Hin as [-> | Hin].
    + exists types, types'. repeat split; try assumption.
      eapply typingLoop_extends, Hr.
    + apply (IH types' r entity); try assumption.
      eapply Hstep; eassumption.
Qed.

Lemma typingLoop_invariant (P : list TypeType → Prop) rec entities :
  (∀ entity types types',
     P types → typingEntity rec entities entity types = Returns types' →
     P types') →
  ∀ rest types r,
    P types → typingLoop rec entities rest types = Returns r → P r.
Proof.
  intros Hstep.
  induction rest as [| e rest IH]; intros types r HP; simpl.
  - now intros [= <-].
  - destruct (typingEntity rec entities e types) as [types' | |] eqn:E;
      try discriminate.
    apply IH. eapply Hstep; eassumption.
Qed.

End ReducerLemmas.

(** ** The scalar-type catalog *)

Section CatalogLemmas.
Variable syntaxes : gmap string string.

Lemma basicDataTypes_step_lookup (dataTypes : gmap string IBasic)
    (n name : string) :
  basicDataTypes_step syntaxes dataTypes n !! name =
    if decide (n = name)
    then match catalog_entry syntaxes n with
         | Some basic => Some basic
         | None => dataTypes !! name
         end
    else dataTypes !! name.
Proof.
  unfold basicDataTypes_step, catalog_entry.
  destruct (decide (n = name)) as [-> | Hne].
  - destruct (String.eqb name "number" || String.eqb name "integer");
      [apply lookup_insert_eq |].
    destruct (String.eqb name "length"); [apply lookup_insert_eq |].
    destruct (syntaxes !! name); [reflexivity | apply lookup_insert_eq].
  - destruct (String.eqb n "number" || String.eqb n "integer");
      [now apply lookup_insert_ne |].
    destruct (String.eqb n "length"); [now apply lookup_insert_ne |].
    destruct (syntaxes !! n); [reflexivity | now apply lookup_insert_ne].
Qed.

Lemma basicDataTypes_fold_lookup (names : list string)
    (dataTypes : gmap string IBasic) (name : string) :
  fold_left (basicDataTypes_step syntaxes) names dataTypes !! name =
    if decide (name ∈ names)
    then match catalog_entry syntaxes name with
         | Some basic => Some basic
         | None => dataTypes !! name
         end
    else dataTypes !! name.
Proof.
  revert dataTypes.
  induction names as [| n names IH]; intros dataTypes; simpl.
  - destruct (decide (name ∈ [])) as [Hin |]; [| reflexivity].
    now apply elem_of_nil in Hin.
  - rewrite IH, basicDataTypes_step_lookup.
    destruct (decide (name ∈ names)) as [Hin | Hnin];
      destruct (decide (n = name)) as [-> | Hne];
      destruct (decide (name ∈ _ :: names)) as [Hin' | Hnin'];
      try reflexivity.
    + destruct (catalog_entry syntaxes name); reflexivity.
    + exfalso. apply Hnin'. now right.
    + exfalso. apply Hnin'. now right.
    + exfalso. apply Hnin'. now left.
    + apply elem_of_cons in Hin' as [-> | Hin']; contradiction.
Qed.

End CatalogLemmas.

(** C9: the catalog built by [basicDataTypes] holds, for every name among
    the keys of the elementary grammar names and ["hex-color"], the entry
    the description names ([number] and [integer] to Number, [length] to
    Length, another name to String when it has no syntax of its own and no
    entry when it has one), and holds no other name. *)
Theorem basicDataTypes_lookup (cssTypes : list string)
    (syntaxes : gmap string string) (name : string) :
  basicDataTypes cssTypes syntaxes !! name =
    if decide (name ∈ cssTypes ++ ["hex-color"])
    then catalog_entry syntaxes name
    else None.
Proof.
  unfold basicDataTypes. rewrite basicDataTypes_fold_lookup.
  rewrite lookup_empty.
  destruct (decide _); [| reflexivity].
  destruct (catalog_entry syntaxes name); reflexivity.
Qed.

(** ** Entities that contribute on their own *)

Section OwnContribution.
Context `{JSNumber}.
Variable cssTypes : list string.
Variable syntaxes : gmap string string.
Variable properties : gmap string string.
Variable parse : string → list Object.
Variable parse_undefined : option (list Object).

Local Abbreviation typingEntity :=
  (typingEntity cssTypes syntaxes properties parse parse_undefined).
Local Abbreviation typing :=
  (typing cssTypes syntaxes properties parse parse_undefined).

(** Every object of the sequence is reduced by the loop body, and what the
    body yields for it is kept to the end. *)
Lemma typing_at fuel entities r entity :
  typing (S fuel) entities = Returns r →
  In entity entities →
  ∃ before after,
    typingEntity (typing fuel) entities entity before = Returns after ∧
    extends after r.
Proof.
  simpl. intros Hr Hin.
  destruct (typingLoop_at cssTypes syntaxes properties parse parse_undefined
              (fun _ => True) (typing fuel) entities (fun _ _ _ _ _ => I)
              entities [] r entity I Hr Hin)
    as (before & after & _ & Hstep & Hext).
  exists before, after. auto.
Qed.

Lemma typingEntity_Function rec entities o m types :
  typingEntity rec entities (o, FunctionEntity m) types
  = Returns (addString types).
Proof. reflexivity. Qed.

Lemma typingEntity_Combinator rec entities o c types :
  typingEntity rec entities (o, CombinatorEntity c) types
  = Returns (match c with SingleBar => types | _ => addString types end).
Proof. destruct c; reflexivity. Qed.

Lemma typing_Function_String fuel entities r o m :
  In (o, FunctionEntity m) entities →
  typing fuel entities = Returns r →
  In TString r.
Proof.
  intros Hin Hr. destruct fuel as [| fuel]; [discriminate |].
  destruct (typing_at _ _ _ _ Hr Hin) as (before & after & Hstep & Hext).
  rewrite typingEntity_Function in Hstep. injection Hstep as <-.
  eapply extends_In; [exact Hext | apply addString_In].
Qed.

Lemma typing_Combinator_String fuel entities r o c :
  c ≠ SingleBar →
  In (o, CombinatorEntity c) entities →
  typing fuel entities = Returns r →
  In TString r.
Proof.
  intros Hc Hin Hr. destruct fuel as [| fuel]; [discriminate |].
  destruct (typing_at _ _ _ _ Hr Hin) as (before & after & Hstep & Hext).
  rewrite typingEntity_Combinator in Hstep. injection Hstep as <-.
  eapply extends_In; [exact Hext |].
  destruct c; try apply addString_In. contradiction.
Qed.

End OwnContribution.

(** ** Termination *)

Lemma foldr_max_le (l : list nat) (x : nat) :
  In x l → (x <= foldr Nat.max 0 l)%nat.
Proof.
  induction l as [| a l IH]; simpl; [contradiction |].
  intros [-> | Hx]; [lia |]. specialize (IH Hx). lia.
Qed.

Lemma nesting_Group entities o inner m :
  In (o, Group inner m) entities →
  (S (nesting inner) <= nesting entities)%nat.
Proof.
  intros Hin. apply foldr_max_le.
  apply in_map_iff. exists (o, Group inner m).
  split; [reflexivity | assumption].
Qed.

Lemma references_Group entities o inner m q :
  In (o, Group inner m) entities →
  In q (references inner) → In q (references entities).
Proof.
  intros Hin Hq.
  apply in_concat. exists (references inner). split; [| assumption].
  apply in_map_iff. exists (o, Group inner m).
  split; [reflexivity | assumption].
Qed.

Lemma references_DataType entities o v m name :
  In (o, DataType v m) entities →
  exec_property (slice_1_m1 v) = Some name →
  In name (references entities).
Proof.
  intros Hin Hname.
  apply in_concat. exists [name]. split; [| now left].
  apply in_map_iff. exists (o, DataType v m). split; [| assumption].
  simpl. now rewrite Hname.
Qed.

Lemma plain_In entities o entity :
  In (o, entity) entities → plain entities = true → entity_plain entity = true.
Proof.
  intros Hin Hp. unfold plain in Hp.
  rewrite forallb_forall in Hp. exact (Hp (o, entity) Hin).
Qed.

Lemma plain_Group entities o inner m :
  In (o, Group inner m) entities → plain entities = true → plain inner = true.
Proof. intros Hin Hp. exact (plain_In _ _ _ Hin Hp). Qed.

Lemma grammars_within_Group properties parse P k entities o inner m :
  In (o, Group inner m) entities →
  grammars_within properties parse P k entities →
  grammars_within properties parse P k inner.
Proof.
  intros Hin Hg. destruct k as [| k]; simpl in *; intros q syntax Hq Ep;
    apply (Hg q syntax); try assumption;
    eapply references_Group; eassumption.
Qed.

Section Termination.
Context `{JSNumber}.
Variable cssTypes : list string.
Variable syntaxes : gmap string string.
Variable properties : gmap string string.
Variable parse : string → list Object.
Variable parse_undefined : option (list Object).

Local Abbreviation typingEntity :=
  (typingEntity cssTypes syntaxes properties parse parse_undefined).
Local Abbreviation typingLoop :=
  (typingLoop cssTypes syntaxes properties parse parse_undefined).
Local Abbreviation typing :=
  (typing cssTypes syntaxes properties parse parse_undefined).

(** The loop body returns a list as soon as the recursive calls it makes
    do, for an entity that names no member of [Object.prototype]. *)
Lemma typingEntity_total rec entities o entity types :
  entity_plain entity = true →
  (∀ inner m, entity = Group inner m → ∃ r, rec inner = Returns r) →
  (∀ v m name syntax,
     entity = DataType v m →
     exec_property (slice_1_m1 v) = Some name →
     properties !! name = Some syntax →
     ∃ r, rec (parse syntax) = Returns r) →
  ∃ r, typingEntity rec entities (o, entity) types = Returns r.
Proof.
  intros Hplain Hgroup Hdata. unfold typingEntity.
  destruct entity as [value m | v m | inner m | c | m]; simpl.
  - destruct (shouldIncludeComponent entities o); [| eauto].
    destruct (String.eqb _ value); eauto.
  - destruct (shouldIncludeComponent entities o); [| eauto].
    simpl in Hplain. apply negb_true_iff in Hplain.
    destruct (exec_property (slice_1_m1 v)) as [name |] eqn:En.
    + destruct (properties !! name) as [syntax |] eqn:Ep.
      * destruct (Hdata v m name syntax eq_refl En Ep) as [r ->].
        simpl. eauto.
      * rewrite Hplain. eauto.
    + destruct (basicDataTypes _ _ !! _); [eauto |].
      rewrite Hplain. eauto.
  - destruct (shouldIncludeComponent entities o); [| eauto].
    destruct (Hgroup inner m eq_refl) as [r ->]. simpl. eauto.
  - destruct (_ || _); eauto.
  - eauto.
Qed.

Lemma typingLoop_total rec entities rest types :
  (∀ entity, In entity rest →
     ∀ types, ∃ r, typingEntity rec entities entity types = Returns r) →
  ∃ r, typingLoop rec entities rest types = Returns r.
Proof.
  revert types.
  induction rest as [| e rest IH]; intros types Hall; simpl; [eauto |].
  destruct (Hall e (or_introl eq_refl) types) as [types' ->].
  apply IH. intros entity Hin. apply Hall. now right.
Qed.

(** With groups nested at most [d0] deep in [entities] and at most [d] deep
    in the grammars its reference chains reach, and chains of at most [k]
    properties, calls nested [d0 + k * d + k + 1] deep are enough: the
    nesting met along a chain, its [k] references, and the first call. *)
Lemma typing_total d k :
  ∀ d0 entities fuel,
    (nesting entities <= d0)%nat →
    plain entities = true →
    grammars_within properties parse
      (fun es => (nesting es <= d)%nat ∧ plain es = true) k entities →
    (d0 + k * d + k + 1 <= fuel)%nat →
    ∃ r, typing fuel entities = Returns r.
Proof.
  induction k as [| k IHk];
    (induction d0 as [| d0 IHd]; intros entities fuel Hn Hp Hg Hf;
     (destruct fuel as [| fuel]; [lia |]); simpl;
     apply typingLoop_total; intros [o entity] Hin types;
     (apply typingEntity_total; [exact (plain_In _ _ _ Hin Hp) | |])).
  - intros inner m ->. apply nesting_Group in Hin. lia.
  - intros v m name syntax -> En Ep.
    destruct (Hg name syntax (references_DataType _ _ _ _ _ Hin En) Ep).
  - intros inner m ->. apply IHd.
    + apply nesting_Group in Hin. lia.
    + eapply plain_Group; eassumption.
    + eapply grammars_within_Group; eassumption.
    + lia.
  - intros v m name syntax -> En Ep.
    destruct (Hg name syntax (references_DataType _ _ _ _ _ Hin En) Ep).
  - intros inner m ->. apply nesting_Group in Hin. lia.
  - intros v m name syntax -> En Ep.
    destruct (Hg name syntax (references_DataType _ _ _ _ _ Hin En) Ep)
      as [[Hd Hpl] Hg'].
    apply (IHk d); [assumption | assumption | exact Hg' | simpl in Hf; lia].
  - intros inner m ->. apply IHd.
    + apply nesting_Group in Hin. lia.
    + eapply plain_Group; eassumption.
    + eapply grammars_within_Group; eassumption.
    + lia.
  - intros v m name syntax -> En Ep.
    destruct (Hg name syntax (references_DataType _ _ _ _ _ Hin En) Ep)
      as [[Hd Hpl] Hg'].
    apply (IHk d); [assumption | assumption | exact Hg' | simpl in Hf; lia].
Qed.

End Termination.

(** A dataset whose reference graph [rank] orders, with grammars nested at
    most [d] deep that name no member of [Object.prototype], bounds the
    chains of every sequence by the rank of its references. *)
Lemma ranked_grammars_within properties parse rank d :
  ranked properties parse rank →
  nesting_below properties parse d →
  (∀ p syntax, properties !! p = Some syntax → plain (parse syntax) = true) →
  ∀ k entities,
    chain_below properties rank k entities →
    grammars_within properties parse
      (fun es => (nesting es <= d)%nat ∧ plain es = true) k entities.
Proof.
  intros Hranked Hnesting Hplain.
  induction k as [| k IHk]; intros entities Hc; simpl; intros q syntax Hq Ep.
  - pose proof (Hc q Hq (ex_intro _ syntax Ep)). lia.
  - split; [split; [eapply Hnesting, Ep | eapply Hplain, Ep] |].
    apply IHk. intros q' Hq' Hknown.
    pose proof (Hranked q syntax q' Ep Hq' Hknown).
    pose proof (Hc q Hq (ex_intro _ syntax Ep)). lia.
Qed.

(** ** More fuel gives the same outcome *)

Section Fuel.
Context `{JSNumber}.
Variable cssTypes : list string.
Variable syntaxes : gmap string string.
Variable properties : gmap string string.
Variable parse : string → list Object.
Variable parse_undefined : option (list Object).

Local Abbreviation typingComponent :=
  (typingComponent cssTypes syntaxes properties parse parse_undefined).
Local Abbreviation typingEntity :=
  (typingEntity cssTypes syntaxes properties parse parse_undefined).
Local Abbreviation typingLoop :=
  (typingLoop cssTypes syntaxes properties parse parse_undefined).
Local Abbreviation typing :=
  (typing cssTypes syntaxes properties parse parse_undefined).

Section Mono.
Variables rec rec' : list Object → Outcome.
Hypothesis Hrec :
  ∀ entities, rec entities ≠ Deeper → rec' entities = rec entities.

Lemma merge_mono types entities :
  merge types (rec entities) ≠ Deeper →
  merge types (rec' entities) = merge types (rec entities).
Proof.
  intros Hne. rewrite Hrec; [reflexivity |].
  intros E. rewrite E in Hne. now apply Hne.
Qed.

Lemma typingComponent_mono entity types :
  typingComponent rec entity types ≠ Deeper →
  typingComponent rec' entity types = typingComponent rec entity types.
Proof.
  destruct entity as [value m | v m | inner m | c | m]; simpl;
    try reflexivity.
  - destruct (exec_property _) as [name |]; [| reflexivity].
    destruct (properties !! name) as [syntax |]; [apply merge_mono |].
    destruct (inherited name); [| reflexivity].
    destruct parse_undefined as [entities |]; [apply merge_mono | reflexivity].
  - apply merge_mono.
Qed.

Lemma typingEntity_mono entities entity types :
  typingEntity rec entities entity types ≠ Deeper →
  typingEntity rec' entities entity types
  = typingEntity rec entities entity types.
Proof.
  unfold typingEntity.
  destruct (isComponent (snd entity)); [| reflexivity].
  destruct (shouldIncludeComponent entities (fst entity)); [| reflexivity].
  apply typingComponent_mono.
Qed.

Lemma typingLoop_mono entities rest types :
  typingLoop rec entities rest types ≠ Deeper →
  typingLoop rec' entities rest types = typingLoop rec entities rest types.
Proof.
  revert types.
  induction rest as [| e rest IH]; intros types; simpl; [reflexivity |].
  intros Hne.
  rewrite typingEntity_mono.
  - destruct (typingEntity rec entities e types) as [types' | |];
      [now apply IH | reflexivity | reflexivity].
  - intros E. rewrite E in Hne. now apply Hne.
Qed.

End Mono.

(** An outcome other than [Deeper] is the outcome at every larger depth. *)
Lemma typing_settled fuel :
  ∀ fuel' entities,
    (fuel <= fuel')%nat →
    typing fuel entities ≠ Deeper →
    typing fuel' entities = typing fuel entities.
Proof.
  induction fuel as [| fuel IH]; intros fuel' entities Hle Hne;
    [now contradiction Hne |].
  destruct fuel' as [| fuel']; [lia |]. simpl.
  apply typingLoop_mono; [| exact Hne].
  intros es. apply IH. lia.
Qed.

Lemma typing_mono fuel fuel' entities r :
  (fuel <= fuel')%nat →
  typing fuel entities = Returns r → typing fuel' entities = Returns r.
Proof.
  intros Hle Hr. rewrite <- Hr. apply typing_settled; [assumption |].
  rewrite Hr. discriminate.
Qed.

End Fuel.

(** ** Numeric literals of a result

    Every numeric literal the reducer produces is [Number(s)] of a keyword
    that reads back as [s]; on such numbers [===] is identity as soon as
    numbers that are [===] print alike (as JavaScript's do: [0] and [-0]
    both print ["0"]). *)

Section Canonical.
Context `{JSNumber}.
Variable cssTypes : list string.
Variable syntaxes : gmap string string.
Variable properties : gmap string string.
Variable parse : string → list Object.
Variable parse_undefined : option (list Object).

Local Abbreviation typingComponent :=
  (typingComponent cssTypes syntaxes properties parse parse_undefined).
Local Abbreviation typingEntity :=
  (typingEntity cssTypes syntaxes properties parse parse_undefined).
Local Abbreviation typing :=
  (typing cssTypes syntaxes properties parse parse_undefined).

Lemma addType_canonical types t :
  Forall canonical types → canonical t → Forall canonical (addType types t).
Proof.
  intros Hts Ht. destruct (addType_cases types t) as [-> | ->];
    [assumption |].
  apply Forall_app. split; [assumption | now constructor].
Qed.

Lemma addTypes_canonical inner types :
  Forall canonical types → Forall canonical inner →
  Forall canonical (addTypes types inner).
Proof.
  unfold addTypes. revert types.
  induction inner as [| t inner IH]; intros types Hts Hin; simpl;
    [assumption |].
  inversion Hin; subst. apply IH; [| assumption].
  now apply addType_canonical.
Qed.

Lemma fallback_canonical (b : bool) types :
  Forall canonical types →
  Forall canonical (if b then addString types else types).
Proof.
  intros Hts. destruct b; [| assumption].
  now apply (addType_canonical types TString).
Qed.

Lemma merge_canonical (rec : list Object → Outcome) (b : bool)
    types entities types' :
  (∀ es r, rec es = Returns r → Forall canonical r) →
  Forall canonical types →
  merge (if b then addString types else types) (rec entities)
  = Returns types' →
  Forall canonical types'.
Proof.
  intros Hrec Hts Hm. apply merge_Returns in Hm as (r & E & ->).
  apply addTypes_canonical; [now apply fallback_canonical | eapply Hrec, E].
Qed.

Lemma typingComponent_canonical rec entity types types' :
  (∀ entities r, rec entities = Returns r → Forall canonical r) →
  Forall canonical types →
  typingComponent rec entity types = Returns types' →
  Forall canonical types'.
Proof.
  intros Hrec Hts.
  destruct entity as [value m | v m | inner m | c | m]; simpl.
  - destruct (String.eqb _ value) eqn:E; intros [= <-].
    + apply String.eqb_eq in E.
      apply (addType_canonical types (TNumericLiteral _)); [assumption |].
      simpl. now rewrite E.
    + now apply (addType_canonical types (TStringLiteral _)).
  - destruct (exec_property _) as [name |].
    + destruct (properties !! name) as [syntax |].
      * now apply merge_canonical.
      * destruct (inherited name).
        -- destruct parse_undefined as [entities |]; [| discriminate].
           now apply merge_canonical.
        -- intros [= <-]. now apply (addType_canonical types TString).
    + destruct (basicDataTypes _ _ !! _) as [b |].
      * intros [= <-].
        apply addType_canonical; [assumption | now destruct b].
      * destruct (inherited _); intros [= <-].
        now apply (addType_canonical types (TDataType _)).
  - now apply merge_canonical.
  - now intros [= <-].
  - now intros [= <-].
Qed.

Lemma typingEntity_canonical rec entities entity types types' :
  (∀ es r, rec es = Returns r → Forall canonical r) →
  Forall canonical types →
  typingEntity rec entities entity types = Returns types' →
  Forall canonical types'.
Proof.
  intros Hrec Hts. unfold typingEntity. destruct entity as [o entity]. simpl.
  destruct (isComponent entity).
  - destruct (shouldIncludeComponent entities o).
    + now apply typingComponent_canonical.
    + now intros [= <-].
  - destruct entity as [value m | v m | inner m | c | m];
      try (now intros [= <-]).
    + destruct (_ || _); intros [= <-];
        [now apply (addType_canonical types TString) | assumption].
    + intros [= <-]. now apply (addType_canonical types TString).
Qed.

Lemma typing_canonical fuel :
  ∀ entities r, typing fuel entities = Returns r → Forall canonical r.
Proof.
  induction fuel as [| fuel IH]; intros entities r; [discriminate |].
  simpl.
  apply (typingLoop_invariant cssTypes syntaxes properties parse parse_undefined
           (Forall canonical) (typing fuel) entities).
  - intros entity types types' Hts.
    now apply typingEntity_canonical.
  - constructor.
Qed.

Hypothesis strict_eq_String :
  ∀ a b : number, strict_eq a b = true → js_String a = js_String b.

Lemma addNumericLiteral_In types n :
  Forall canonical types → js_Number (js_String n) = n →
  In (TNumericLiteral n) (addNumericLiteral types n).
Proof.
  intros Hts Hn. unfold addNumericLiteral.
  destruct (forallb _ types) eqn:E.
  - apply in_or_app; right; now left.
  - apply every_false in E.
    destruct E as [x [Hx Hf]]. destruct x; try discriminate.
    apply Bool.negb_false_iff, strict_eq_String in Hf.
    rewrite Forall_forall in Hts.
    pose proof (Hts _ (proj2 (list_elem_of_In _ _) Hx)) as Hc. simpl in Hc.
    rewrite <- Hn, <- Hf, Hc. exact Hx.
Qed.

Lemma addType_In types t :
  Forall canonical types → canonical t → In t (addType types t).
Proof.
  intros Hts Ht. destruct t; simpl.
  - apply addDataType_In.
  - unfold addLength. destruct (forallb _ types) eqn:Ef.
    + apply in_or_app; right; now left.
    + apply every_false in Ef. destruct Ef as [x [Hx Hf]].
      destruct x; try discriminate. exact Hx.
  - apply addStringLiteral_In.
  - now apply addNumericLiteral_In.
  - apply addString_In.
  - unfold addNumber. destruct (forallb _ types) eqn:Ef.
    + apply in_or_app; right; now left.
    + apply every_false in Ef. destruct Ef as [x [Hx Hf]].
      destruct x; try discriminate. exact Hx.
Qed.

Lemma addTypes_In inner types t :
  Forall canonical types → Forall canonical inner →
  In t inner → In t (addTypes types inner).
Proof.
  unfold addTypes. revert types.
  induction inner as [| u inner IH]; intros types Hts Hin; simpl;
    [contradiction |].
  inversion Hin; subst.
  intros [-> | Ht].
  - apply (addTypes_incl inner). now apply addType_In.
  - apply IH; [now apply addType_canonical | assumption | assumption].
Qed.

End Canonical.

(** ** A sequence of one object *)

Lemma shouldIncludeComponent_alone (o : nat) (entity : EntityType) :
  shouldIncludeComponent [(o, entity)] o = true.
Proof.
  unfold shouldIncludeComponent. simpl. rewrite Nat.eqb_refl. reflexivity.
Qed.

(** ** Functions and combinators *)

(** C10: the inclusion gate is consulted for components only.  Whatever the
    sequence and the object, the loop body adds String for a function, and
    for a combinator adds String or nothing by the operator alone; so a
    function anywhere in a sequence puts String in the result. *)
Theorem gate_only_for_components `{JSNumber} (cssTypes : list string)
    (syntaxes properties : gmap string string)
    (parse : string → list Object)
    (parse_undefined : option (list Object)) :
  (∀ rec entities o m types,
     typingEntity cssTypes syntaxes properties parse
       parse_undefined rec entities
       (o, FunctionEntity m) types = Returns (addString types)) ∧
  (∀ rec entities o c types,
     typingEntity cssTypes syntaxes properties parse
       parse_undefined rec entities
       (o, CombinatorEntity c) types
     = Returns (match c with SingleBar => types | _ => addString types end)) ∧
  (∀ fuel entities r o m,
     In (o, FunctionEntity m) entities →
     typing cssTypes syntaxes properties parse parse_undefined fuel entities
     = Returns r →
     In TString r).
Proof.
  split; [| split].
  - intros. apply typingEntity_Function.
  - intros. apply typingEntity_Combinator.
  - intros fuel entities r o m. apply typing_Function_String.
Qed.

(** A function juxtaposed to a keyword without multiplier: the keyword is
    gated out, the function is not. *)
Lemma gate_only_for_components_witness :
  In (2, FunctionEntity None) Sample.function_after_keyword ∧
  shouldIncludeComponent Sample.function_after_keyword 0 = false ∧
  Sample.typing 1 Sample.function_after_keyword = Returns [TString] ∧
  In (@TString JSInt.runtime) [TString].
Proof.
  set (entities := Sample.function_after_keyword).
  assert (In (2, FunctionEntity None) entities) as Hin
    by (right; right; left; reflexivity).
  assert (Sample.typing 1 entities = Returns [TString]) as Hr
    by (vm_compute; reflexivity).
  assert (shouldIncludeComponent entities 0 = false) as Hgate by reflexivity.
  exact (conj Hin (conj Hgate (conj Hr
           (proj2 (proj2 (@gate_only_for_components JSInt.runtime
              Sample.cssTypes Sample.syntaxes Sample.properties Sample.parse
              Sample.parse_undefined))
              1 entities [TString] 2 None Hin Hr)))).
Defined.

(** C6: for every combinator, whatever the sequence, the object and the
    accumulator, the loop body returns the accumulator with String inserted
    when the operator is "||", "&&" or juxtaposition, and the accumulator
    itself when it is "|"; so a "||", "&&" or juxtaposition combinator
    anywhere in a sequence puts String in its result.  In any dataset and at
    any depth, [left | right] reduces to exactly the two string literals,
    [a && b] and [a b] to exactly String (both keywords are gated out), and
    [a || b] to the two literals with String between them. *)
Theorem combinator_contribution :
  (∀ (R : JSNumber) cssTypes syntaxes properties parse parse_undefined
     rec entities o c types,
     typingEntity cssTypes syntaxes properties parse parse_undefined rec
       entities (o, CombinatorEntity c) types
     = Returns (match c with
                | SingleBar => types
                | DoubleBar | DoubleAmpersand | Juxtaposition =>
                    addString types
                end)) ∧
  (∀ (R : JSNumber) cssTypes syntaxes properties parse parse_undefined
     fuel entities r o c,
     c = DoubleBar ∨ c = DoubleAmpersand ∨ c = Juxtaposition →
     In (o, CombinatorEntity c) entities →
     typing cssTypes syntaxes properties parse parse_undefined fuel entities
     = Returns r →
     In TString r) ∧
  (∀ cssTypes syntaxes properties parse parse_undefined fuel m1 m2,
     @typing JSInt.runtime cssTypes syntaxes properties parse parse_undefined
       (S fuel)
       (Sample.fresh [Keyword "left" m1; CombinatorEntity SingleBar;
                      Keyword "right" m2])
     = Returns [TStringLiteral "left"; TStringLiteral "right"]) ∧
  (∀ cssTypes syntaxes properties parse parse_undefined fuel,
     @typing JSInt.runtime cssTypes syntaxes properties parse parse_undefined
       (S fuel) Further.a_and_b = Returns [TString] ∧
     @typing JSInt.runtime cssTypes syntaxes properties parse parse_undefined
       (S fuel) Further.a_then_b = Returns [TString] ∧
     @typing JSInt.runtime cssTypes syntaxes properties parse parse_undefined
       (S fuel) Sample.either_or_both
     = Returns [TStringLiteral "a"; TString; TStringLiteral "b"]).
Proof.
  split; [| split; [| split]].
  - intros R cssTypes syntaxes properties parse parse_undefined
      rec entities o c types.
    destruct c; reflexivity.
  - intros R cssTypes syntaxes properties parse parse_undefined
      fuel entities r o c Hc.
    apply typing_Combinator_String.
    destruct Hc as [-> | [-> | ->]]; discriminate.
  - reflexivity.
  - intros. repeat split; reflexivity.
Qed.

(** [a && b]: the body adds String at the "&&", and String is in the
    result. *)
Lemma combinator_contribution_witness :
  In (1, CombinatorEntity DoubleAmpersand) Further.a_and_b ∧
  Sample.typing 1 Further.a_and_b = Returns [TString] ∧
  In (@TString JSInt.runtime) [TString].
Proof.
  set (entities := Further.a_and_b).
  assert (In (1, CombinatorEntity DoubleAmpersand) entities) as Hin
    by (right; left; reflexivity).
  assert (Sample.typing 1 entities = Returns [TString]) as Hr
    by (vm_compute; reflexivity).
  exact (conj Hin (conj Hr
           (proj1 (proj2 combinator_contribution) JSInt.runtime
              Sample.cssTypes Sample.syntaxes Sample.properties Sample.parse
              Sample.parse_undefined
              1 entities _ 1 DoubleAmpersand (or_intror (or_introl eq_refl))
              Hin Hr))).
Defined.

(** ** Data-type references that resolve to nothing *)

Section Unresolved.
Context `{JSNumber}.
Variable cssTypes : list string.
Variable syntaxes : gmap string string.
Variable properties : gmap string string.
Variable parse : string → list Object.
Variable parse_undefined : option (list Object).

Local Abbreviation typingEntity :=
  (typingEntity cssTypes syntaxes properties parse parse_undefined).
Local Abbreviation typing :=
  (typing cssTypes syntaxes properties parse parse_undefined).

(** An included reference that quotes a name that is no key of the property
    dataset and no member of [Object.prototype] makes the loop body return
    the accumulator with String inserted, without a recursive call. *)
Lemma unknown_property_adds_String rec entities o v m name types :
  shouldIncludeComponent entities o = true →
  exec_property (slice_1_m1 v) = Some name →
  properties !! name = None →
  inherited name = false →
  typingEntity rec entities (o, DataType v m) types
  = Returns (addString types).
Proof.
  intros Hgate Hname Hnone Hown.
  unfold typingEntity. simpl. now rewrite Hgate, Hname, Hnone, Hown.
Qed.

(** An included reference whose bare name is no key of the scalar-type
    catalog and no member of [Object.prototype] makes the loop body return
    the accumulator with the symbolic descriptor of that name inserted. *)
Lemma unknown_name_adds_DataType rec entities o v m types :
  shouldIncludeComponent entities o = true →
  exec_property (slice_1_m1 v) = None →
  basicDataTypes cssTypes syntaxes !! slice_1_m1 v = None →
  inherited (slice_1_m1 v) = false →
  typingEntity rec entities (o, DataType v m) types
  = Returns (addDataType types (slice_1_m1 v)).
Proof.
  intros Hgate Hname Hnone Hown.
  unfold typingEntity. simpl. now rewrite Hgate, Hname, Hnone, Hown.
Qed.

(** An included reference whose bare name is a member of [Object.prototype]
    and no key of the catalog: [addType] is handed the inherited member and
    the call yields no list, whatever the accumulator and whatever follows. *)
Lemma inherited_name_Faults rec entities o v m types :
  shouldIncludeComponent entities o = true →
  exec_property (slice_1_m1 v) = None →
  basicDataTypes cssTypes syntaxes !! slice_1_m1 v = None →
  inherited (slice_1_m1 v) = true →
  typingEntity rec entities (o, DataType v m) types = Faults.
Proof.
  intros Hgate Hname Hnone Hown.
  unfold typingEntity. simpl. now rewrite Hgate, Hname, Hnone, Hown.
Qed.

(** An included reference that quotes a member of [Object.prototype] that
    is no key of the property dataset takes the branch of the known
    properties: the body reduces [parse(undefined)]. *)
Lemma inherited_property_recurses rec entities o v m name types :
  shouldIncludeComponent entities o = true →
  exec_property (slice_1_m1 v) = Some name →
  properties !! name = None →
  inherited name = true →
  typingEntity rec entities (o, DataType v m) types
  = match parse_undefined with
    | Some undefined_entities =>
        merge (if multiplied m then addString types else types)
          (rec undefined_entities)
    | None => Faults
    end.
Proof.
  intros Hgate Hname Hnone Hown.
  unfold typingEntity. simpl. now rewrite Hgate, Hname, Hnone, Hown.
Qed.

End Unresolved.

(** C7: resolving a reference can fault.  The bare reference [<toString>],
    alone or followed by [| a], names no key of the catalog (at any depth
    and in any dataset the reduction is the catalog entry of [toString] if
    there is one, and a fault otherwise) and none of the sample property
    dataset, and its reduction yields no list instead of the symbolic
    descriptor: the name is [in] the catalog through [Object.prototype].
    The quoted reference [<'constructor'>] names no key of the sample
    property dataset and is reduced as a known property, to the reduction
    of [parse(undefined)] (a fault when that call throws) instead of
    String.  References to names outside [Object.prototype] do degrade as
    described: [<'nope'>] to String and [<ratio>] to its symbolic
    descriptor. *)
Theorem inherited_reference_faults :
  (∀ (R : JSNumber) cssTypes syntaxes properties parse parse_undefined fuel,
     typing cssTypes syntaxes properties parse parse_undefined (S fuel)
       Further.inherited_name
     = match basicDataTypes cssTypes syntaxes !! "toString" with
       | Some basic => Returns [basic_type basic]
       | None => Faults
       end) ∧
  basicDataTypes Sample.cssTypes Sample.syntaxes !! "toString" = None ∧
  Sample.properties !! "toString" = None ∧
  (∀ fuel, Sample.typing (S fuel) Further.inherited_name = Faults) ∧
  (∀ fuel, Sample.typing (S fuel) Further.inherited_name_or_a = Faults) ∧
  Sample.properties !! "constructor" = None ∧
  (∀ parse_undefined fuel,
     @typing JSInt.runtime Sample.cssTypes Sample.syntaxes Sample.properties
       Sample.parse parse_undefined (S fuel) Further.inherited_property
     = match parse_undefined with
       | Some undefined_entities =>
           merge []
             (@typing JSInt.runtime Sample.cssTypes Sample.syntaxes
                Sample.properties Sample.parse parse_undefined fuel
                undefined_entities)
       | None => Faults
       end) ∧
  (∀ fuel, Sample.typing (S (S fuel)) Further.inherited_property
           = Returns [TStringLiteral "undefined"]) ∧
  (∀ fuel, Sample.typing (S fuel) Sample.unknown_property
           = Returns [TString]) ∧
  (∀ fuel, Sample.typing (S fuel) Sample.composite_name
           = Returns [TDataType "ratio"]).
Proof.
  split.
  { intros R cssTypes syntaxes properties parse parse_undefined fuel.
    simpl. unfold typingEntity. cbn [fst snd isComponent].
    change (shouldIncludeComponent Further.inherited_name 0) with true.
    cbn iota. simpl.
    destruct (basicDataTypes _ _ !! _) as [[] |]; reflexivity. }
  split; [vm_compute; reflexivity |].
  split; [vm_compute; reflexivity |].
  split; [intros fuel; vm_compute; reflexivity |].
  split; [intros fuel; vm_compute; reflexivity |].
  split; [vm_compute; reflexivity |].
  split.
  { intros parse_undefined fuel.
    simpl. unfold typingEntity. cbn [fst snd isComponent].
    change (shouldIncludeComponent Further.inherited_property 0) with true.
    cbn iota. simpl.
    replace (Sample.properties !! "constructor") with (@None string)
      by (vm_compute; reflexivity).
    destruct parse_undefined as [undefined_entities |]; [| reflexivity].
    destruct (typing _ _ _ _ _ _ _) as [r | |]; reflexivity. }
  split; [intros fuel; vm_compute; reflexivity |].
  split; intros fuel; vm_compute; reflexivity.
Qed.

(** ** Keywords *)

Section Keywords.
Context `{JSNumber}.
Variable cssTypes : list string.
Variable syntaxes : gmap string string.
Variable properties : gmap string string.
Variable parse : string → list Object.
Variable parse_undefined : option (list Object).

Local Abbreviation typingEntity :=
  (typingEntity cssTypes syntaxes properties parse parse_undefined).
Local Abbreviation typing :=
  (typing cssTypes syntaxes properties parse parse_undefined).

(** [typing_at], with the accumulator known to hold canonical numbers. *)
Lemma typing_at_canonical fuel entities r entity :
  typing (S fuel) entities = Returns r →
  In entity entities →
  ∃ before after,
    Forall canonical before ∧
    typingEntity (typing fuel) entities entity before = Returns after ∧
    extends after r.
Proof.
  simpl. intros Hr Hin.
  refine (typingLoop_at cssTypes syntaxes properties parse parse_undefined
            (Forall canonical) (typing fuel) entities _
            entities [] r entity _ Hr Hin).
  - intros e types types' Hts.
    apply typingEntity_canonical; [| assumption].
    apply typing_canonical.
  - constructor.
Qed.

(** A keyword alone in a sequence. *)
Lemma typing_Keyword_alone fuel o value m :
  typing (S fuel) [(o, Keyword value m)]
  = Returns (if String.eqb (js_String (js_Number value)) value
             then [TNumericLiteral (js_Number value)]
             else [TStringLiteral value]).
Proof.
  simpl. unfold typingEntity. simpl fst. simpl snd. cbn [isComponent].
  rewrite shouldIncludeComponent_alone. simpl.
  destruct (String.eqb _ value); reflexivity.
Qed.

Hypothesis strict_eq_String :
  ∀ a b : number, strict_eq a b = true → js_String a = js_String b.


End Keywords.

Lemma JSInt_equal_to_string (a b : JSInt.int_number) :
  JSInt.equal a b = true → JSInt.to_string a = JSInt.to_string b.
Proof.
  destruct a as [| x], b as [| y]; simpl; try discriminate.
  intros E. apply Z.eqb_eq in E. now subst.
Qed.



(** ** Expansive multipliers *)

Section Expansive.
Context `{JSNumber}.
Variable cssTypes : list string.
Variable syntaxes : gmap string string.
Variable properties : gmap string string.
Variable parse : string → list Object.
Variable parse_undefined : option (list Object).

Local Abbreviation typingEntity :=
  (typingEntity cssTypes syntaxes properties parse parse_undefined).
Local Abbreviation typing :=
  (typing cssTypes syntaxes properties parse parse_undefined).

Hypothesis strict_eq_String :
  ∀ a b : number, strict_eq a b = true → js_String a = js_String b.

(** What a multiplied component that recurses into [inner] leaves in the
    result: String, and every descriptor of the reduction of [inner]. *)
Lemma fallback_and_expansion fuel before after r inner :
  Forall canonical before →
  merge (addString before) (typing fuel inner) = Returns after →
  extends after r →
  In TString r ∧
  ∃ ri, typing fuel inner = Returns ri ∧ ∀ t, In t ri → In t r.
Proof.
  intros Hcanon Hstep Hext.
  apply merge_Returns in Hstep as (ri & Ei & ->). split.
  - eapply extends_In; [exact Hext |].
    apply addTypes_incl, addString_In.
  - exists ri. split; [assumption |]. intros t Ht.
    eapply extends_In; [exact Hext |].
    apply addTypes_In; try assumption.
    + now apply (addType_canonical before TString).
    + eapply typing_canonical, Ei.
Qed.

Lemma typing_Group_multiplied fuel entities r o inner m :
  typing (S fuel) entities = Returns r →
  In (o, Group inner m) entities →
  shouldIncludeComponent entities o = true →
  multiplied m = true →
  In TString r ∧
  ∃ ri, typing fuel inner = Returns ri ∧ ∀ t, In t ri → In t r.
Proof.
  intros Hr Hk Hgate Hm.
  destruct (typing_at_canonical _ _ _ _ _ _ _ _ _ Hr Hk)
    as (before & after & Hcanon & Hstep & Hext).
  unfold typingEntity in Hstep. simpl in Hstep.
  rewrite Hgate, Hm in Hstep.
  eapply fallback_and_expansion; eassumption.
Qed.

Lemma typing_property_multiplied fuel entities r o v m name syntax :
  typing (S fuel) entities = Returns r →
  In (o, DataType v m) entities →
  shouldIncludeComponent entities o = true →
  multiplied m = true →
  exec_property (slice_1_m1 v) = Some name →
  properties !! name = Some syntax →
  In TString r ∧
  ∃ ri, typing fuel (parse syntax) = Returns ri ∧ ∀ t, In t ri → In t r.
Proof.
  intros Hr Hk Hgate Hm Hname Hsyntax.
  destruct (typing_at_canonical _ _ _ _ _ _ _ _ _ Hr Hk)
    as (before & after & Hcanon & Hstep & Hext).
  unfold typingEntity in Hstep. simpl in Hstep.
  rewrite Hgate, Hname, Hsyntax, Hm in Hstep.
  eapply fallback_and_expansion; eassumption.
Qed.

End Expansive.

(** An included group, or an included data-type reference that quotes a
    property of the dataset, whose multiplier is expansive for
    [isMultiplied] ("*", "+", "#", "!", or a range with [min] or [max]
    above 1) puts String in the result, together with every descriptor of
    the reduction of the group's sequence, respectively of the property's
    grammar. *)
Lemma expansive_group_or_property (R : JSNumber) (cssTypes : list string)
    (syntaxes properties : gmap string string)
    (parse : string → list Object)
    (parse_undefined : option (list Object)) :
  (∀ a b : number, strict_eq a b = true → js_String a = js_String b) →
  (∀ fuel entities r o inner m,
     typing cssTypes syntaxes properties parse parse_undefined (S fuel)
       entities = Returns r →
     In (o, Group inner m) entities →
     shouldIncludeComponent entities o = true →
     multiplied m = true →
     In TString r ∧
     ∃ ri, typing cssTypes syntaxes properties parse parse_undefined fuel
             inner = Returns ri ∧
           ∀ t, In t ri → In t r) ∧
  (∀ fuel entities r o v m name syntax,
     typing cssTypes syntaxes properties parse parse_undefined (S fuel)
       entities = Returns r →
     In (o, DataType v m) entities →
     shouldIncludeComponent entities o = true →
     multiplied m = true →
     exec_property (slice_1_m1 v) = Some name →
     properties !! name = Some syntax →
     In TString r ∧
     ∃ ri, typing cssTypes syntaxes properties parse parse_undefined fuel
             (parse syntax) = Returns ri ∧
           ∀ t, In t ri → In t r) ∧
  (∀ s a b,
     s = Asterisk ∨ s = PlusSign ∨ s = HashMark ∨ s = ExclamationPoint →
     multiplied (Some (mkMultiplier s a b)) = true) ∧
  (∀ a b, (1 < a ∨ 1 < b)%Z →
     multiplied (Some (mkMultiplier CurlyBracet a b)) = true).
Proof.
  intros Heq. repeat split.
  - eapply typing_Group_multiplied; eassumption.
  - eapply typing_Group_multiplied; eassumption.
  - eapply typing_property_multiplied; eassumption.
  - eapply typing_property_multiplied; eassumption.
  - intros s a b [-> | [-> | [-> | ->]]]; reflexivity.
  - intros a b Hab. unfold multiplied, isMultiplied. simpl.
    destruct Hab as [Ha | Hb].
    + apply Z.ltb_lt in Ha. now rewrite Ha.
    + apply Z.ltb_lt in Hb. rewrite Hb. now rewrite Bool.orb_true_r.
Qed.

Lemma expansive_group_or_property_sample :
  Sample.typing 2 Sample.repeated_group
    = Returns [TString; TStringLiteral "a"; JSInt.literal 1] ∧
  Sample.typing 2 Sample.repeated_tint
    = Returns [TString; TStringLiteral "red"; TStringLiteral "blue"] ∧
  In (@TString JSInt.runtime) [TString; TStringLiteral "a"; JSInt.literal 1] ∧
  In (@TString JSInt.runtime)
    [TString; TStringLiteral "red"; TStringLiteral "blue"].
Proof.
  assert (Sample.typing 2 Sample.repeated_group
          = Returns [TString; TStringLiteral "a"; JSInt.literal 1]) as Hg
    by (vm_compute; reflexivity).
  assert (Sample.typing 2 Sample.repeated_tint
          = Returns [TString; TStringLiteral "red"; TStringLiteral "blue"])
    as Ht by (vm_compute; reflexivity).
  pose proof (expansive_group_or_property JSInt.runtime
                Sample.cssTypes Sample.syntaxes Sample.properties
                Sample.parse Sample.parse_undefined JSInt_equal_to_string)
    as (Hgroup & Hproperty & _).
  exact (conj Hg (conj Ht (conj
    (proj1 (Hgroup 1 Sample.repeated_group _ 0 _ _ Hg
              (or_introl eq_refl) eq_refl eq_refl))
    (proj1 (Hproperty 1 Sample.repeated_tint _ 0 _ _ "tint" "red | blue"
              Ht (or_introl eq_refl) eq_refl eq_refl eq_refl eq_refl))))).
Defined.

(** C3: an included keyword or bare data-type reference with an expansive
    multiplier reduces without String.  The keyword branch and the branch
    of the bare names never read the multiplier: the body returns the same
    for any two multipliers, and a keyword alone in a sequence reduces to
    its one literal under every multiplier, in any dataset.  So [auto+]
    reduces to the string literal of [auto] alone and [<length>+] to
    Length alone, while the sibling branches of the same switch, the group
    and the known property, add String for the same multiplier:
    [[ auto ]+] reduces to String and the literal, [<'tint'>+] to String
    and the two literals of its grammar. *)
Theorem expansive_keyword_without_String :
  (∀ (R : JSNumber) cssTypes syntaxes properties parse parse_undefined
     rec value m m' types,
     typingComponent cssTypes syntaxes properties parse parse_undefined rec
       (Keyword value m) types
     = typingComponent cssTypes syntaxes properties parse parse_undefined rec
         (Keyword value m') types) ∧
  (∀ (R : JSNumber) cssTypes syntaxes properties parse parse_undefined
     rec v m m' types,
     match exec_property (slice_1_m1 v) with
     | Some _ => True
     | None =>
         typingComponent cssTypes syntaxes properties parse parse_undefined
           rec (DataType v m) types
         = typingComponent cssTypes syntaxes properties parse parse_undefined
             rec (DataType v m') types
     end) ∧
  (∀ (R : JSNumber) cssTypes syntaxes properties parse parse_undefined
     fuel o value m,
     ∃ t, typing cssTypes syntaxes properties parse parse_undefined (S fuel)
            [(o, Keyword value m)] = Returns [t] ∧ t ≠ TString) ∧
  multiplied (Sample.mult PlusSign) = true ∧
  shouldIncludeComponent Sample.repeated_keyword 0 = true ∧
  shouldIncludeComponent Sample.repeated_length 0 = true ∧
  (∀ cssTypes syntaxes properties parse parse_undefined fuel,
     @typing JSInt.runtime cssTypes syntaxes properties parse parse_undefined
       (S fuel) Sample.repeated_keyword = Returns [TStringLiteral "auto"]) ∧
  (∀ fuel, Sample.typing (S fuel) Sample.repeated_length = Returns [TLength]) ∧
  ¬ In (@TString JSInt.runtime) [TStringLiteral "auto"] ∧
  ¬ In (@TString JSInt.runtime) [TLength] ∧
  (∀ cssTypes syntaxes properties parse parse_undefined fuel,
     @typing JSInt.runtime cssTypes syntaxes properties parse parse_undefined
       (S (S fuel)) Further.repeated_group_of_keyword
     = Returns [TString; TStringLiteral "auto"]) ∧
  (∀ fuel, Sample.typing (S (S fuel)) Sample.repeated_tint
           = Returns [TString; TStringLiteral "red"; TStringLiteral "blue"]).
Proof.
  split; [reflexivity |].
  split.
  { intros R cssTypes syntaxes properties parse parse_undefined
      rec v m m' types.
    destruct (exec_property (slice_1_m1 v)) eqn:E; [exact I |].
    simpl. now rewrite E. }
  split.
  { intros R cssTypes syntaxes properties parse parse_undefined
      fuel o value m.
    rewrite typing_Keyword_alone.
    destruct (String.eqb _ value); eexists; (split; [reflexivity |]);
      discriminate. }
  split; [reflexivity |].
  split; [reflexivity |].
  split; [reflexivity |].
  split; [reflexivity |].
  split; [intros fuel; vm_compute; reflexivity |].
  split; [intros [E | []]; discriminate E |].
  split; [intros [E | []]; discriminate E |].
  split; [reflexivity |].
  intros fuel; vm_compute; reflexivity.
Qed.

(** ** Duplicates *)

Section Distinct.
Context `{JSNumber}.
Variable cssTypes : list string.
Variable syntaxes : gmap string string.
Variable properties : gmap string string.
Variable parse : string → list Object.
Variable parse_undefined : option (list Object).

Local Abbreviation typingComponent :=
  (typingComponent cssTypes syntaxes properties parse parse_undefined).
Local Abbreviation typingEntity :=
  (typingEntity cssTypes syntaxes properties parse parse_undefined).
Local Abbreviation typing :=
  (typing cssTypes syntaxes properties parse parse_undefined).

Lemma distinct_keys_snoc types t :
  distinct_keys types →
  Forall (fun x => same_key x t = false) types →
  distinct_keys (types ++ [t]).
Proof.
  unfold distinct_keys.
  induction types as [| a types IH]; intros Hd Hall; simpl.
  - constructor; constructor.
  - inversion Hd; subst. inversion Hall; subst.
    constructor.
    + apply Forall_app. split; [assumption |]. now constructor.
    + now apply IH.
Qed.

Lemma addType_fresh types t :
  addType types t = types ∨
  (addType types t = types ++ [t] ∧
   Forall (fun x => same_key x t = false) types).
Proof.
  destruct t; simpl;
    [ unfold addDataType | unfold addLength | unfold addStringLiteral
    | unfold addNumericLiteral | unfold addString | unfold addNumber ];
    match goal with |- context [forallb ?f types] =>
      destruct (forallb f types) eqn:E end;
    auto; right; (split; [reflexivity |]);
    rewrite forallb_forall in E; apply Forall_forall; intros x Hx;
    apply list_elem_of_In in Hx; specialize (E x Hx);
    destruct x; simpl; try reflexivity; try discriminate;
    now apply Bool.negb_true_iff in E.
Qed.

Lemma addType_distinct types t :
  distinct_keys types → distinct_keys (addType types t).
Proof.
  intros Hd. destruct (addType_fresh types t) as [-> | [-> Hall]];
    [assumption | now apply distinct_keys_snoc].
Qed.

Lemma addTypes_distinct inner types :
  distinct_keys types → distinct_keys (addTypes types inner).
Proof.
  unfold addTypes. revert types.
  induction inner as [| t inner IH]; intros types Hd; simpl; [assumption |].
  apply IH, addType_distinct, Hd.
Qed.

Lemma fallback_distinct (b : bool) types :
  distinct_keys types →
  distinct_keys (if b then addString types else types).
Proof.
  intros Hd. destruct b; [exact (addType_distinct types TString Hd) | exact Hd].
Qed.

Lemma merge_distinct (b : bool) types inner types' :
  distinct_keys types →
  merge (if b then addString types else types) inner = Returns types' →
  distinct_keys types'.
Proof.
  intros Hd Hm. apply merge_Returns in Hm as (r & _ & ->).
  now apply addTypes_distinct, fallback_distinct.
Qed.

Lemma typingEntity_distinct rec entities entity types types' :
  distinct_keys types →
  typingEntity rec entities entity types = Returns types' →
  distinct_keys types'.
Proof.
  intros Hd. unfold typingEntity.
  destruct entity as [o [value m | v m | inner m | c | m]]; simpl.
  - destruct (shouldIncludeComponent entities o); [| now intros [= <-]].
    destruct (String.eqb _ value); intros [= <-].
    + exact (addType_distinct types (TNumericLiteral _) Hd).
    + exact (addType_distinct types (TStringLiteral _) Hd).
  - destruct (shouldIncludeComponent entities o); [| now intros [= <-]].
    destruct (exec_property _) as [name |].
    + destruct (properties !! name) as [syntax |].
      * now apply merge_distinct.
      * destruct (inherited name).
        -- destruct parse_undefined as [es |]; [| discriminate].
           now apply merge_distinct.
        -- intros [= <-]. exact (addType_distinct types TString Hd).
    + destruct (basicDataTypes _ _ !! _) as [b |].
      * intros [= <-]. now apply addType_distinct.
      * destruct (inherited _); intros [= <-].
        exact (addType_distinct types (TDataType _) Hd).
  - destruct (shouldIncludeComponent entities o); [| now intros [= <-]].
    now apply merge_distinct.
  - destruct (_ || _); intros [= <-];
      [exact (addType_distinct types TString Hd) | exact Hd].
  - intros [= <-]. exact (addType_distinct types TString Hd).
Qed.

(** A result holds no two descriptors that the insertions compare equal. *)
Lemma typing_distinct fuel entities r :
  typing fuel entities = Returns r → distinct_keys r.
Proof.
  destruct fuel as [| fuel]; [discriminate |]. simpl.
  apply (typingLoop_invariant cssTypes syntaxes properties parse parse_undefined
           distinct_keys (typing fuel) entities).
  - intros entity types types'. apply typingEntity_distinct.
  - constructor.
Qed.

(** A descriptor is left out exactly when the sequence holds one that
    compares equal to it. *)
Lemma addType_present types t :
  existsb (fun x => same_key x t) types = true → addType types t = types.
Proof.
  intros Hex. apply existsb_exists in Hex as [x [Hx Hk]].
  destruct (addType_fresh types t) as [E | [_ Hall]]; [exact E |].
  rewrite Forall_forall in Hall.
  rewrite (Hall x (proj2 (list_elem_of_In _ _) Hx)) in Hk. discriminate.
Qed.

Lemma addType_test types t :
  addType types t =
    if forallb (fun x => negb (same_key x t)) types
    then types ++ [t] else types.
Proof.
  assert (∀ p q : TypeType → bool, (∀ x, p x = q x) →
            forallb p types = forallb q types) as Hext.
  { intros p q Hpq. induction types as [| x l IH]; simpl;
      [reflexivity | now rewrite Hpq, IH]. }
  destruct t; simpl;
    [ unfold addDataType | unfold addLength | unfold addStringLiteral
    | unfold addNumericLiteral | unfold addString | unfold addNumber ];
    match goal with
    | |- (if forallb ?f _ then _ else _) = (if forallb ?g _ then _ else _) =>
        rewrite (Hext f g); [reflexivity |]
    end;
    intros x; destruct x; reflexivity.
Qed.

Lemma addType_holds types t :
  self_equal t → existsb (fun x => same_key x t) (addType types t) = true.
Proof.
  intros Ht. rewrite addType_test.
  destruct (forallb _ types) eqn:E.
  - rewrite existsb_app. simpl.
    assert (same_key t t = true) as ->.
    { destruct t; simpl in *; try reflexivity; try assumption;
        apply String.eqb_refl. }
    now rewrite Bool.orb_true_r.
  - apply every_false in E as [x [Hx Hk]].
    apply existsb_exists. exists x. split; [assumption |].
    now apply Bool.negb_false_iff in Hk.
Qed.

Lemma holds_extends (p : TypeType → bool) types types' :
  extends types types' → existsb p types = true → existsb p types' = true.
Proof.
  intros [added ->] Hex. rewrite existsb_app, Hex. reflexivity.
Qed.

(** Inserting a descriptor that is [===] to itself a second time changes
    nothing, whatever was inserted in between. *)
Lemma addType_again types t others :
  self_equal t →
  addType (addTypes (addType types t) others) t
  = addTypes (addType types t) others.
Proof.
  intros Ht. apply addType_present.
  eapply holds_extends; [apply addTypes_extends | now apply addType_holds].
Qed.

End Distinct.

(** C4 fails on the numeric literal NaN: the keyword [NaN] reads back
    unchanged, so it is a numeric literal, and NaN is not [===] to itself,
    so inserting its literal twice appends it twice, and the alternation
    [NaN | NaN] reduces to a sequence that holds it twice. *)
Theorem NaN_literal_inserted_twice :
  JSInt.to_string (JSInt.to_number "NaN") = "NaN" ∧
  JSInt.equal (JSInt.to_number "NaN") (JSInt.to_number "NaN") = false ∧
  addType [] JSInt.literal_NaN = [JSInt.literal_NaN] ∧
  addType (addType [] JSInt.literal_NaN) JSInt.literal_NaN
    = [JSInt.literal_NaN; JSInt.literal_NaN] ∧
  Sample.typing 1 Sample.nan_twice
    = Returns [JSInt.literal_NaN; JSInt.literal_NaN] ∧
  ¬ NoDup [JSInt.literal_NaN; JSInt.literal_NaN].
Proof.
  repeat split; try reflexivity.
  intros Hnd. inversion Hnd as [| x l Hnin _]; subst.
  apply Hnin. now left.
Qed.

(** ** The inclusion gate *)

(** What [isOptionalEntity] accepts: "*", "?", and a range whose [min] is
    positive. *)
Lemma isOptionalEntity_true (entity : EntityType) :
  isOptionalEntity entity = true ↔
  ∃ multiplier,
    multiplier_of entity = Some multiplier ∧
    (sign multiplier = Asterisk ∨ sign multiplier = QuestionMark ∨
     (sign multiplier = CurlyBracet ∧ (0 < min multiplier)%Z)).
Proof.
  unfold isOptionalEntity, isCurlyBracetMultiplier.
  destruct (multiplier_of entity) as [[s a b] |]; simpl.
  - split.
    + intros E. exists (mkMultiplier s a b). split; [reflexivity |]. simpl.
      destruct s; simpl in E; auto; try discriminate.
      right; right. split; [reflexivity |].
      rewrite Bool.orb_false_r in E. now apply Z.ltb_lt.
    + intros (multiplier & [= <-] & [E | [E | [E Hmin]]]); simpl in *;
        subst; try reflexivity.
      apply Z.ltb_lt in Hmin. now rewrite Hmin.
  - split; [discriminate |]. now intros (multiplier & [=] & _).
Qed.

(** Off the ranges, [isOptionalEntity] is the described notion. *)
Lemma isOptionalEntity_off_ranges (entity : EntityType) :
  (∀ multiplier, multiplier_of entity = Some multiplier →
                 sign multiplier ≠ CurlyBracet) →
  isOptionalEntity entity = optional_multiplier entity.
Proof.
  unfold isOptionalEntity, optional_multiplier, isCurlyBracetMultiplier.
  destruct (multiplier_of entity) as [[s a b] |]; [| reflexivity].
  intros Hs. specialize (Hs _ eq_refl). simpl in *.
  destruct s; try reflexivity. contradiction.
Qed.

(** [indexOf] is the position of an object that no earlier position holds. *)
Lemma indexOf_first (entities : list Object) :
  ∀ i o e,
    entities !! i = Some (o, e) →
    (∀ j e', (j < i)%nat → entities !! j ≠ Some (o, e')) →
    indexOf entities o = Z.of_nat i.
Proof.
  induction entities as [| [o' e'] rest IH]; intros i o e Hi Hfirst.
  - destruct i; discriminate.
  - simpl. destruct i as [| i]; simpl in Hi.
    + injection Hi as -> ->. now rewrite Nat.eqb_refl.
    + destruct (Nat.eqb o' o) eqn:E.
      * apply Nat.eqb_eq in E. subst.
        exfalso. apply (Hfirst 0%nat e'); [lia | reflexivity].
      * rewrite (IH i o e Hi).
        -- destruct (Z.of_nat i <? 0)%Z eqn:En; [| lia].
           apply Z.ltb_lt in En. lia.
        -- intros j e'' Hj. apply (Hfirst (S j) e''). lia.
Qed.

Lemma at_index_of_nat (entities : list Object) (i : nat) :
  at_index entities (Z.of_nat i) = entities !! i.
Proof.
  unfold at_index. destruct (Z.of_nat i <? 0)%Z eqn:E.
  - apply Z.ltb_lt in E. lia.
  - now rewrite Nat2Z.id.
Qed.

Lemma scanLeft_S (entities : list Object) (i : nat) :
  scanLeft entities (S i) =
    match entities !! i with
    | Some (o, CombinatorEntity combinator) =>
        if isMandatoryCombinator combinator then
          match previousEntity entities o with
          | Some (_, previous) =>
              if isOptionalEntity previous then scanLeft entities i else false
          | None => scanLeft entities i
          end
        else true
    | _ => scanLeft entities i
    end.
Proof. reflexivity. Qed.

(** A component right after a juxtaposition whose left operand
    [isOptionalEntity] rejects is gated out (the component and the
    combinator being objects that occur nowhere earlier), and the loop body
    leaves the accumulator as it is. *)
Lemma juxtaposed_excluded (entities : list Object) (k : nat)
    (o_left o_juxt o : nat) (left : EntityType) :
  entities !! k = Some (o_left, left) →
  entities !! S k = Some (o_juxt, CombinatorEntity Juxtaposition) →
  indexOf entities o_juxt = Z.of_nat (S k) →
  indexOf entities o = Z.of_nat (S (S k)) →
  isOptionalEntity left = false →
  shouldIncludeComponent entities o = false.
Proof.
  intros Hleft Hjuxt Hij Hio Hopt. unfold shouldIncludeComponent.
  rewrite Hio, Nat2Z.id, scanLeft_S, Hjuxt.
  cbn [isMandatoryCombinator]. unfold previousEntity. rewrite Hij.
  replace (Z.of_nat (S k) - 1)%Z with (Z.of_nat k) by lia.
  rewrite at_index_of_nat, Hleft. now rewrite Hopt.
Qed.

Lemma excluded_contributes_nothing `{JSNumber} cssTypes syntaxes properties
    parse parse_undefined rec entities o entity types :
  isComponent entity = true →
  shouldIncludeComponent entities o = false →
  typingEntity cssTypes syntaxes properties parse
    parse_undefined rec entities (o, entity)
    types = Returns types.
Proof.
  intros Hc Hgate. unfold typingEntity. simpl. now rewrite Hc, Hgate.
Qed.

(** In [a b?] the keyword [b] follows a juxtaposition whose left operand has
    no multiplier: [b] is gated out, [a] is not, and the result holds the
    literal of [a] and the String of the juxtaposition. *)
Lemma juxtaposed_excluded_example :
  shouldIncludeComponent Sample.a_then_optional_b 2 = false ∧
  shouldIncludeComponent Sample.a_then_optional_b 0 = true ∧
  Sample.typing 1 Sample.a_then_optional_b
    = Returns [TStringLiteral "a"; TString].
Proof.
  split; [| split; reflexivity].
  apply (juxtaposed_excluded Sample.a_then_optional_b 0 0 1 2
           (Sample.kw "a")); reflexivity.
Qed.

(** The operand the gate inspects next to a combinator is found through
    [indexOf] of the combinator.  In [a? b c] the keyword [c] is gated out
    on account of [b]; were both juxtapositions one object, the operand
    inspected for the second one would be that of the first, [a?]. *)
Lemma gate_of_shared_combinator :
  shouldIncludeComponent Sample.three_juxtaposed 4 = false ∧
  Sample.typing 1 Sample.three_juxtaposed = Returns [TString] ∧
  shouldIncludeComponent Sample.three_juxtaposed_shared 4 = true ∧
  Sample.typing 1 Sample.three_juxtaposed_shared
    = Returns [TString; TStringLiteral "c"].
Proof. repeat split. Qed.

(** C2, at the ranges: [isOptionalEntity] tests [min > 0], so the neighbor
    [a{0,1}] does not count as optional and [b] in [a{0,1} b] is excluded,
    while the neighbor [a{2,3}] counts as optional and [b] in [a{2,3} b] is
    included. *)
Theorem optional_range_not_recognised :
  optional_multiplier (Keyword "a" (Sample.curly 0 1)) = true ∧
  isOptionalEntity (Keyword "a" (Sample.curly 0 1)) = false ∧
  shouldIncludeComponent Sample.optional_range_then_b 2 = false ∧
  Sample.typing 1 Sample.optional_range_then_b = Returns [TString] ∧
  optional_multiplier (Keyword "a" (Sample.curly 2 3)) = false ∧
  isOptionalEntity (Keyword "a" (Sample.curly 2 3)) = true ∧
  shouldIncludeComponent Sample.ranged_then_b 2 = true.
Proof. repeat split. Qed.

(** C1, at a left operand with a range: in [a{2,3} b] the keyword [b] comes
    right after a juxtaposition whose left operand has the multiplier
    [{2,3}], which is not optional, and yet [b] is included and its string
    literal is in the result. *)
Theorem juxtaposed_after_range_included :
  Sample.ranged_then_b
    = [(0, Keyword "a" (Sample.curly 2 3));
       (1, CombinatorEntity Juxtaposition);
       (2, Sample.kw "b")] ∧
  optional_multiplier (Keyword "a" (Sample.curly 2 3)) = false ∧
  shouldIncludeComponent Sample.ranged_then_b 2 = true ∧
  Sample.typing 1 Sample.ranged_then_b
    = Returns [TString; TStringLiteral "b"].
Proof. repeat split. Qed.

(** ** Depth of the recursion *)

Lemma Sample_properties_cases (p syntax : string) :
  Sample.properties !! p = Some syntax →
  (p = "tint" ∧ syntax = "red | blue") ∨
  (p = "outer" ∧ syntax = "[ <'inner'> ]") ∨
  (p = "inner" ∧ syntax = "[ a ]").
Proof.
  unfold Sample.properties. intros Hp.
  apply lookup_insert_Some in Hp as [[<- <-] | [_ Hp]]; [auto |].
  apply lookup_insert_Some in Hp as [[<- <-] | [_ Hp]]; [auto |].
  apply lookup_singleton_Some in Hp as [<- <-]. auto.
Qed.

Lemma Sample_ranked : ranked Sample.properties Sample.parse Sample.rank.
Proof.
  intros p syntax q Hp Hq Hknown.
  apply Sample_properties_cases in Hp as [[-> ->] | [[-> ->] | [-> ->]]];
    simpl in Hq.
  - contradiction.
  - destruct Hq as [<- | []]. vm_compute. lia.
  - contradiction.
Qed.

Lemma Sample_nesting_below :
  nesting_below Sample.properties Sample.parse 1.
Proof.
  intros p syntax Hp.
  apply Sample_properties_cases in Hp as [[-> ->] | [[-> ->] | [-> ->]]];
    vm_compute; lia.
Qed.

Lemma Sample_chain_below :
  chain_below Sample.properties Sample.rank 2 Sample.nested_reference.
Proof.
  intros q Hq _. simpl in Hq. destruct Hq as [<- | []]. vm_compute. lia.
Qed.

Lemma Sample_plain (p syntax : string) :
  Sample.properties !! p = Some syntax → plain (Sample.parse syntax) = true.
Proof.
  intros Hp.
  apply Sample_properties_cases in Hp as [[-> ->] | [[-> ->] | [-> ->]]];
    reflexivity.
Qed.

Lemma Sample_grammars_within :
  grammars_within Sample.properties Sample.parse
    (fun es => (nesting es <= 1)%nat ∧ plain es = true) 2
    Sample.nested_reference.
Proof.
  apply (ranked_grammars_within _ _ Sample.rank).
  - exact Sample_ranked.
  - exact Sample_nesting_below.
  - exact Sample_plain.
  - exact Sample_chain_below.
Qed.

(** C8, as it stands, fails: the sequence [[ <'outer'> ]] nests its groups
    1 deep, as the grammars of the dataset do, and its reference chain has
    the 2 properties [outer] and [inner], not fewer; the reduction does not
    return within calls nested 1 + 2, nor 1 + 2 + 1, nor 5 deep, and
    returns at 6. *)
Lemma recursion_depth_counterexample :
  ranked Sample.properties Sample.parse Sample.rank ∧
  nesting_below Sample.properties Sample.parse 1 ∧
  nesting Sample.nested_reference = 1 ∧
  chain_below Sample.properties Sample.rank 2 Sample.nested_reference ∧
  ¬ chain_below Sample.properties Sample.rank 1 Sample.nested_reference ∧
  Sample.typing (1 + 2) Sample.nested_reference = Deeper ∧
  Sample.typing (1 + 2 + 1) Sample.nested_reference = Deeper ∧
  Sample.typing 5 Sample.nested_reference = Deeper ∧
  Sample.typing 6 Sample.nested_reference = Returns [TStringLiteral "a"].
Proof.
  split; [exact Sample_ranked |].
  split; [exact Sample_nesting_below |].
  split; [reflexivity |].
  split; [exact Sample_chain_below |].
  split.
  - intros Hc.
    assert (Sample.rank "outer" < 1)%nat as Hlt.
    { apply Hc; [now left | vm_compute; eauto]. }
    vm_compute in Hlt. lia.
  - repeat split; vm_compute; reflexivity.
Qed.

(** C8, amended: take a sequence that nests its groups at most [d0] deep and
    whose reference chains into the property dataset have at most [k]
    properties (the references reachable from the sequence form no cycle;
    the rest of the dataset may), the grammars on these chains nesting
    their groups at most [d] deep, and let no data-type reference of the
    sequence or of a grammar on the chains name a member of
    [Object.prototype].  Then the reduction returns a list, the same for
    every bound on the depth of the calls from [d0 + k * d + k + 1] on; for
    a sequence that quotes no property of the dataset, from [d0 + 1] on,
    whatever the dataset. *)
Theorem typing_terminates (R : JSNumber) (cssTypes : list string)
    (syntaxes properties : gmap string string)
    (parse : string → list Object)
    (parse_undefined : option (list Object)) :
  (∀ d k d0 entities,
     (nesting entities <= d0)%nat →
     plain entities = true →
     grammars_within properties parse
       (fun es => (nesting es <= d)%nat ∧ plain es = true) k entities →
     ∃ r, ∀ fuel, (d0 + k * d + k + 1 <= fuel)%nat →
       typing cssTypes syntaxes properties parse parse_undefined fuel entities
       = Returns r) ∧
  (∀ d0 entities,
     (nesting entities <= d0)%nat →
     plain entities = true →
     (∀ q, In q (references entities) → properties !! q = None) →
     ∃ r, ∀ fuel, (d0 + 1 <= fuel)%nat →
       typing cssTypes syntaxes properties parse parse_undefined fuel entities
       = Returns r).
Proof.
  split.
  - intros d k d0 entities Hn Hp Hg.
    destruct (typing_total cssTypes syntaxes properties parse parse_undefined
                d k d0 entities _ Hn Hp Hg (le_n _)) as [r Hr].
    exists r. intros fuel Hf. eapply typing_mono; eassumption.
  - intros d0 entities Hn Hp Hc.
    destruct (typing_total cssTypes syntaxes properties parse parse_undefined
                0 0 d0 entities (d0 + 1) Hn Hp) as [r Hr].
    + simpl. intros q syntax Hq Ep. rewrite (Hc q Hq) in Ep. discriminate.
    + lia.
    + exists r. intros fuel Hf. eapply typing_mono; eassumption.
Qed.

Lemma typing_terminates_witness :
  (nesting Sample.nested_reference <= 1)%nat ∧
  plain Sample.nested_reference = true ∧
  grammars_within Sample.properties Sample.parse
    (fun es => (nesting es <= 1)%nat ∧ plain es = true) 2
    Sample.nested_reference ∧
  ∃ r, ∀ fuel, (1 + 2 * 1 + 2 + 1 <= fuel)%nat →
    Sample.typing fuel Sample.nested_reference = Returns r.
Proof.
  assert (nesting Sample.nested_reference <= 1)%nat as Hn
    by (vm_compute; lia).
  assert (plain Sample.nested_reference = true) as Hp by reflexivity.
  exact (conj Hn (conj Hp (conj Sample_grammars_within
           (proj1 (typing_terminates JSInt.runtime Sample.cssTypes
                     Sample.syntaxes Sample.properties Sample.parse
                     Sample.parse_undefined)
              1 2 1 Sample.nested_reference
              Hn Hp Sample_grammars_within)))).
Defined.

(** * Further properties *)

(** ** Insertion and merge *)

Section Merge.
Context `{JSNumber}.

Lemma same_key_refl (t : TypeType) : self_equal t → same_key t t = true.
Proof.
  destruct t; simpl; intros Ht; try reflexivity; try assumption;
    apply String.eqb_refl.
Qed.

Lemma addTypes_cons (types : list TypeType) (t : TypeType)
    (inner : list TypeType) :
  addTypes types (t :: inner) = addTypes (addType types t) inner.
Proof. reflexivity. Qed.

(** Every descriptor of [inner] that is [===] to itself is held, up to the
    comparison, by the merge of [inner]. *)
Lemma addTypes_holds (inner : list TypeType) :
  ∀ types t,
    self_equal t → In t inner →
    existsb (fun x => same_key x t) (addTypes types inner) = true.
Proof.
  induction inner as [| u inner IH]; intros types t Ht Hin; [contradiction |].
  rewrite addTypes_cons. destruct Hin as [-> | Hin].
  - eapply holds_extends; [apply addTypes_extends | now apply addType_holds].
  - now apply IH.
Qed.

Lemma addTypes_present (inner : list TypeType) :
  ∀ types,
    (∀ t, In t inner → existsb (fun x => same_key x t) types = true) →
    addTypes types inner = types.
Proof.
  induction inner as [| u inner IH]; intros types Hall; [reflexivity |].
  rewrite addTypes_cons, addType_present by (apply Hall; now left).
  apply IH. intros t Ht. apply Hall. now right.
Qed.

Lemma ForallOrdPairs_lookup {A : Type} (R : A → A → Prop) (l : list A) :
  ForallOrdPairs R l →
  ∀ i j a b, (i < j)%nat → l !! i = Some a → l !! j = Some b → R a b.
Proof.
  induction 1 as [| x l Hx Hl IH]; intros i j a b Hij Hi Hj.
  - destruct i; discriminate.
  - destruct j as [| j]; [lia |]. simpl in Hj.
    destruct i as [| i]; simpl in Hi.
    + injection Hi as ->. rewrite Forall_forall in Hx.
      apply Hx. eapply list_elem_of_lookup_2, Hj.
    + apply (IH i j); [lia | assumption | assumption].
Qed.

End Merge.

(** X1: an insertion or a merge only appends: the accumulator stays as a
    prefix, in its order, and what follows it are descriptors of the merged
    sequence, no more of them than that sequence has. *)
Theorem merge_only_appends `{JSNumber} (inner types : list TypeType) :
  ∃ added,
    addTypes types inner = types ++ added ∧
    (∀ t, In t added → In t inner) ∧
    (List.length added <= List.length inner)%nat.
Proof.
  revert types.
  induction inner as [| u inner IH]; intros types.
  - exists []. simpl. rewrite app_nil_r. repeat split; [tauto | lia].
  - rewrite addTypes_cons.
    destruct (IH (addType types u)) as (added & -> & Hin & Hlen).
    destruct (addType_cases types u) as [-> | ->].
    + exists added. repeat split; [| simpl; lia].
      intros t Ht. right. now apply Hin.
    + exists (u :: added). rewrite <- app_assoc. repeat split.
      * intros t [<- | Ht]; [now left | right; now apply Hin].
      * simpl. lia.
Qed.

(** X2: once a descriptor that is [===] to itself has been inserted,
    inserting it again changes nothing, however the sequence has grown in
    between. *)
Theorem inserted_stays_absorbed `{JSNumber} (types types' : list TypeType)
    (t : TypeType) :
  self_equal t →
  extends (addType types t) types' →
  addType types' t = types'.
Proof.
  intros Ht Hext. apply addType_present.
  eapply holds_extends; [exact Hext | now apply addType_holds].
Qed.

Lemma inserted_stays_absorbed_witness :
  self_equal (@TStringLiteral JSInt.runtime "a") ∧
  extends (addType [] (@TStringLiteral JSInt.runtime "a"))
    [TStringLiteral "a"; TString; JSInt.literal 1] ∧
  addType [TStringLiteral "a"; TString; JSInt.literal 1]
    (@TStringLiteral JSInt.runtime "a")
  = [TStringLiteral "a"; TString; JSInt.literal 1].
Proof.
  assert (self_equal (@TStringLiteral JSInt.runtime "a")) as Ht by exact I.
  assert (extends (addType [] (@TStringLiteral JSInt.runtime "a"))
            [TStringLiteral "a"; TString; JSInt.literal 1]) as Hext
    by (exists [TString; JSInt.literal 1]; reflexivity).
  exact (conj Ht (conj Hext
           (@inserted_stays_absorbed JSInt.runtime [] _ _ Ht Hext))).
Defined.

(** X3: merging a sequence of descriptors that are [===] to themselves a
    second time changes nothing, however the accumulator has grown after the
    first merge. *)
Theorem merged_stays_absorbed `{JSNumber} (types types' inner : list TypeType) :
  Forall self_equal inner →
  extends (addTypes types inner) types' →
  addTypes types' inner = types'.
Proof.
  intros Hself Hext. apply addTypes_present. intros t Ht.
  eapply holds_extends; [exact Hext |].
  apply addTypes_holds; [| assumption].
  rewrite Forall_forall in Hself. apply Hself. now apply list_elem_of_In.
Qed.

Lemma merged_stays_absorbed_witness :
  Forall self_equal [@TStringLiteral JSInt.runtime "red"; TString] ∧
  extends (addTypes [TLength] [@TStringLiteral JSInt.runtime "red"; TString])
    [TLength; TStringLiteral "red"; TString; TNumber] ∧
  addTypes [TLength; TStringLiteral "red"; TString; TNumber]
    [@TStringLiteral JSInt.runtime "red"; TString]
  = [TLength; TStringLiteral "red"; TString; TNumber].
Proof.
  assert (Forall self_equal [@TStringLiteral JSInt.runtime "red"; TString])
    as Hself by (repeat constructor).
  assert (extends
            (addTypes [TLength] [@TStringLiteral JSInt.runtime "red"; TString])
            [TLength; TStringLiteral "red"; TString; TNumber]) as Hext
    by (exists [TNumber]; reflexivity).
  exact (conj Hself (conj Hext
           (@merged_stays_absorbed JSInt.runtime [TLength] _ _ Hself Hext))).
Defined.

(** X4: a result holds no two descriptors that the insertions compare
    equal, so no descriptor that is [===] to itself (any but the literal of
    NaN) occurs in it twice. *)
Theorem result_without_repeats `{JSNumber} (cssTypes : list string)
    (syntaxes properties : gmap string string)
    (parse : string → list Object)
    (parse_undefined : option (list Object)) (fuel : nat)
    (entities : list Object)
    (r : list TypeType) :
  typing cssTypes syntaxes properties parse parse_undefined fuel entities
  = Returns r →
  distinct_keys r ∧
  ∀ i j t, r !! i = Some t → r !! j = Some t → self_equal t → i = j.
Proof.
  intros Hr.
  pose proof (typing_distinct _ _ _ _ _ _ _ _ Hr) as Hd.
  split; [exact Hd |].
  intros i j t Hi Hj Ht.
  pose proof (same_key_refl t Ht) as Hrefl.
  destruct (Nat.lt_trichotomy i j) as [Hlt | [Heq | Hgt]]; [| exact Heq |].
  - pose proof (ForallOrdPairs_lookup _ _ Hd i j t t Hlt Hi Hj) as Hk.
    simpl in Hk. rewrite Hrefl in Hk. discriminate.
  - pose proof (ForallOrdPairs_lookup _ _ Hd j i t t Hgt Hj Hi) as Hk.
    simpl in Hk. rewrite Hrefl in Hk. discriminate.
Qed.

Lemma result_without_repeats_witness :
  Sample.typing 1 Further.enumeration
    = Returns [TStringLiteral "a"; JSInt.literal 7] ∧
  distinct_keys [@TStringLiteral JSInt.runtime "a"; JSInt.literal 7].
Proof.
  assert (Sample.typing 1 Further.enumeration
          = Returns [TStringLiteral "a"; JSInt.literal 7]) as Hr
    by (vm_compute; reflexivity).
  exact (conj Hr
           (proj1 (@result_without_repeats JSInt.runtime Sample.cssTypes
                     Sample.syntaxes Sample.properties Sample.parse
                     Sample.parse_undefined
                     1 Further.enumeration _ Hr))).
Defined.

(** ** Literals of a result *)

Section Textual.
Context `{JSNumber}.
Variable cssTypes : list string.
Variable syntaxes : gmap string string.
Variable properties : gmap string string.
Variable parse : string → list Object.
Variable parse_undefined : option (list Object).

Local Abbreviation typingEntity :=
  (typingEntity cssTypes syntaxes properties parse parse_undefined).
Local Abbreviation typing :=
  (typing cssTypes syntaxes properties parse parse_undefined).

Lemma addType_textual types t :
  Forall textual types → textual t → Forall textual (addType types t).
Proof.
  intros Hts Ht. destruct (addType_cases types t) as [-> | ->];
    [assumption |].
  apply Forall_app. split; [assumption | now constructor].
Qed.

Lemma addTypes_textual inner types :
  Forall textual types → Forall textual inner →
  Forall textual (addTypes types inner).
Proof.
  revert types.
  induction inner as [| t inner IH]; intros types Hts Hin; [assumption |].
  rewrite addTypes_cons. inversion Hin; subst.
  apply IH; [| assumption]. now apply addType_textual.
Qed.

Lemma fallback_textual (b : bool) types :
  Forall textual types →
  Forall textual (if b then addString types else types).
Proof.
  intros Hts. destruct b; [| assumption].
  now apply (addType_textual types TString).
Qed.

Lemma merge_textual (rec : list Object → Outcome) (b : bool)
    types entities types' :
  (∀ es r, rec es = Returns r → Forall textual r) →
  Forall textual types →
  merge (if b then addString types else types) (rec entities)
  = Returns types' →
  Forall textual types'.
Proof.
  intros Hrec Hts Hm. apply merge_Returns in Hm as (r & E & ->).
  apply addTypes_textual; [now apply fallback_textual | eapply Hrec, E].
Qed.

Lemma typingEntity_textual rec entities entity types types' :
  (∀ es r, rec es = Returns r → Forall textual r) →
  Forall textual types →
  typingEntity rec entities entity types = Returns types' →
  Forall textual types'.
Proof.
  intros Hrec Hts. unfold typingEntity.
  destruct entity as [o [value m | v m | inner m | c | m]]; simpl.
  - destruct (shouldIncludeComponent entities o); [| now intros [= <-]].
    destruct (String.eqb _ value) eqn:E; intros [= <-].
    + now apply (addType_textual types (TNumericLiteral _)).
    + now apply (addType_textual types (TStringLiteral _)).
  - destruct (shouldIncludeComponent entities o); [| now intros [= <-]].
    destruct (exec_property _) as [name |].
    + destruct (properties !! name) as [syntax |].
      * now apply merge_textual.
      * destruct (inherited name).
        -- destruct parse_undefined as [es |]; [| discriminate].
           now apply merge_textual.
        -- intros [= <-]. now apply (addType_textual types TString).
    + destruct (basicDataTypes _ _ !! _) as [b |].
      * intros [= <-].
        apply addType_textual; [assumption | now destruct b].
      * destruct (inherited _); intros [= <-].
        now apply (addType_textual types (TDataType _)).
  - destruct (shouldIncludeComponent entities o); [| now intros [= <-]].
    now apply merge_textual.
  - destruct (_ || _); intros [= <-];
      [now apply (addType_textual types TString) | assumption].
  - intros [= <-]. now apply (addType_textual types TString).
Qed.

Lemma typing_textual fuel :
  ∀ entities r, typing fuel entities = Returns r → Forall textual r.
Proof.
  induction fuel as [| fuel IH]; intros entities r; [discriminate |].
  simpl.
  apply (typingLoop_invariant cssTypes syntaxes properties parse parse_undefined
           (Forall textual) (typing fuel) entities).
  - intros entity types types' Hts. now apply typingEntity_textual.
  - constructor.
Qed.

End Textual.

(** X5: the literals of a result are split by the read-back test: every
    numeric literal is the number its own print parses to, the text of every
    string literal does not read back from [String(Number(text))], and so no
    result holds a numeric literal together with the string literal of its
    print. *)
Theorem literals_split_by_read_back `{JSNumber} (cssTypes : list string)
    (syntaxes properties : gmap string string)
    (parse : string → list Object)
    (parse_undefined : option (list Object)) (fuel : nat)
    (entities : list Object)
    (r : list TypeType) :
  typing cssTypes syntaxes properties parse parse_undefined fuel entities
  = Returns r →
  (∀ n, In (TNumericLiteral n) r → js_Number (js_String n) = n) ∧
  (∀ s, In (TStringLiteral s) r → js_String (js_Number s) ≠ s) ∧
  (∀ n, In (TNumericLiteral n) r → ¬ In (TStringLiteral (js_String n)) r).
Proof.
  intros Hr.
  pose proof (typing_canonical _ _ _ _ _ _ _ _ Hr) as Hc.
  pose proof (typing_textual _ _ _ _ _ _ _ _ Hr) as Ht.
  rewrite Forall_forall in Hc. rewrite Forall_forall in Ht.
  assert (∀ n, In (TNumericLiteral n) r → js_Number (js_String n) = n) as Hnum.
  { intros n Hn. exact (Hc _ (proj2 (list_elem_of_In _ _) Hn)). }
  assert (∀ s, In (TStringLiteral s) r → js_String (js_Number s) ≠ s) as Hstr.
  { intros s Hs E. pose proof (Ht _ (proj2 (list_elem_of_In _ _) Hs)) as Hf.
    simpl in Hf. apply String.eqb_neq in Hf. contradiction. }
  repeat split; try assumption.
  intros n Hn Hs. apply (Hstr _ Hs). now rewrite (Hnum n Hn).
Qed.

Lemma literals_split_by_read_back_witness :
  Sample.typing 1 Sample.number_or_auto
    = Returns [JSInt.literal 42; TStringLiteral "auto"] ∧
  (∀ n, In (@TNumericLiteral JSInt.runtime n)
          [JSInt.literal 42; TStringLiteral "auto"] →
        JSInt.to_number (JSInt.to_string n) = n).
Proof.
  assert (Sample.typing 1 Sample.number_or_auto
          = Returns [JSInt.literal 42; TStringLiteral "auto"]) as Hr
    by (vm_compute; reflexivity).
  exact (conj Hr
           (proj1 (@literals_split_by_read_back JSInt.runtime Sample.cssTypes
                     Sample.syntaxes Sample.properties Sample.parse
                     Sample.parse_undefined
                     1 Sample.number_or_auto _ Hr))).
Defined.

(** ** A group or a property reference alone *)

Section Alone.
Context `{JSNumber}.

Lemma ForallOrdPairs_app_head {A : Type} (R : A → A → Prop)
    (acc : list A) (t : A) (rest : list A) :
  ForallOrdPairs R (acc ++ t :: rest) → Forall (fun x => R x t) acc.
Proof.
  induction acc as [| a acc IH]; simpl; intros Hd; [constructor |].
  inversion Hd as [| x l Hx Hl]; subst. constructor.
  - rewrite Forall_forall in Hx. apply Hx.
    apply list_elem_of_In, in_or_app. right. now left.
  - now apply IH.
Qed.

Lemma ForallOrdPairs_app_drop {A : Type} (R : A → A → Prop)
    (acc : list A) (t : A) (rest : list A) :
  ForallOrdPairs R (acc ++ t :: rest) → ForallOrdPairs R (acc ++ rest).
Proof.
  induction acc as [| a acc IH]; simpl; intros Hd.
  - now inversion Hd.
  - inversion Hd as [| x l Hx Hl]; subst. constructor; [| now apply IH].
    rewrite Forall_app in Hx. destruct Hx as [Hacc Hrest].
    inversion Hrest; subst. apply Forall_app. now split.
Qed.

Lemma distinct_keys_head (acc : list TypeType) (t : TypeType)
    (rest : list TypeType) :
  distinct_keys (acc ++ t :: rest) →
  Forall (fun x => same_key x t = false) acc.
Proof.
  exact (ForallOrdPairs_app_head (fun t u => same_key t u = false)
           acc t rest).
Qed.

Lemma distinct_keys_drop (acc : list TypeType) (t : TypeType)
    (rest : list TypeType) :
  distinct_keys (acc ++ t :: rest) → distinct_keys (acc ++ rest).
Proof.
  exact (ForallOrdPairs_app_drop (fun t u => same_key t u = false)
           acc t rest).
Qed.

Lemma addType_appends (types : list TypeType) (t : TypeType) :
  Forall (fun x => same_key x t = false) types →
  addType types t = types ++ [t].
Proof.
  intros Hall. rewrite addType_test.
  replace (forallb (fun x => negb (same_key x t)) types) with true;
    [reflexivity |].
  symmetry. apply forallb_forall. intros x Hx.
  rewrite Forall_forall in Hall.
  now rewrite (Hall x (proj2 (list_elem_of_In _ _) Hx)).
Qed.

(** Merging descriptors that differ from each other and from those of the
    accumulator appends them all. *)
Lemma addTypes_distinct_app (inner : list TypeType) :
  ∀ types, distinct_keys (types ++ inner) →
           addTypes types inner = types ++ inner.
Proof.
  induction inner as [| t inner IH]; intros types Hd.
  - simpl. now rewrite app_nil_r.
  - rewrite addTypes_cons, addType_appends
      by (eapply distinct_keys_head, Hd).
    rewrite IH; rewrite <- app_assoc; [reflexivity | exact Hd].
Qed.

(** Merging them behind String appends all but String. *)
Lemma addTypes_behind_String (inner : list TypeType) :
  ∀ types, distinct_keys (types ++ inner) →
           Forall (fun x => not_String x = true) types →
           addTypes (TString :: types) inner
           = TString :: types ++ List.filter not_String inner.
Proof.
  induction inner as [| t inner IH]; intros types Hd Hns.
  - simpl. now rewrite app_nil_r.
  - rewrite addTypes_cons.
    destruct (not_String t) eqn:Et.
    + rewrite addType_appends.
      * change ((TString :: types) ++ [t]) with (TString :: (types ++ [t])).
        rewrite IH.
        -- rewrite <- app_assoc. simpl. rewrite Et. reflexivity.
        -- rewrite <- app_assoc. exact Hd.
        -- apply Forall_app. split; [assumption | now constructor].
      * constructor; [now destruct t |].
        eapply distinct_keys_head, Hd.
    + destruct t; try discriminate.
      rewrite addType_present by reflexivity.
      rewrite IH; [| eapply distinct_keys_drop, Hd | assumption].
      simpl. reflexivity.
Qed.

Lemma fallback_then_merge (b : bool) (ri : list TypeType) :
  distinct_keys ri →
  addTypes (if b then addString [] else []) ri
  = if b then TString :: List.filter not_String ri else ri.
Proof.
  intros Hd. destruct b.
  - change (addString []) with [@TString H].
    now rewrite (addTypes_behind_String ri []).
  - now rewrite (addTypes_distinct_app ri []).
Qed.

End Alone.

(** X6: a group alone in a sequence reduces to what its own sequence
    reduces to, the same descriptors in the same order; with an expansive
    multiplier, to String followed by these descriptors without String. *)
Theorem group_alone `{JSNumber} (cssTypes : list string)
    (syntaxes properties : gmap string string)
    (parse : string → list Object)
    (parse_undefined : option (list Object)) (fuel o : nat)
    (inner : list Object)
    (m : option MultiplierType) (ri : list TypeType) :
  typing cssTypes syntaxes properties parse parse_undefined fuel inner
  = Returns ri →
  typing cssTypes syntaxes properties parse
    parse_undefined (S fuel) [(o, Group inner m)]
  = Returns (if multiplied m then TString :: List.filter not_String ri
             else ri).
Proof.
  intros Hri. simpl. unfold typingEntity. simpl fst. simpl snd.
  cbn [isComponent]. rewrite shouldIncludeComponent_alone.
  cbn [typingComponent]. rewrite Hri. cbn [merge].
  rewrite fallback_then_merge; [reflexivity |].
  eapply typing_distinct, Hri.
Qed.

Lemma group_alone_witness :
  Sample.typing 1 (Sample.fresh [Sample.kw "red"; CombinatorEntity SingleBar;
                                 Sample.kw "1"])
    = Returns [TStringLiteral "red"; JSInt.literal 1] ∧
  Sample.typing 2 Further.plain_group
    = Returns [TStringLiteral "red"; JSInt.literal 1].
Proof.
  assert (Sample.typing 1 (Sample.fresh [Sample.kw "red";
                                         CombinatorEntity SingleBar;
                                         Sample.kw "1"])
          = Returns [TStringLiteral "red"; JSInt.literal 1]) as Hri
    by (vm_compute; reflexivity).
  exact (conj Hri
           (@group_alone JSInt.runtime Sample.cssTypes Sample.syntaxes
              Sample.properties Sample.parse
              Sample.parse_undefined 1 0 _ None _ Hri)).
Defined.

(** X7: a data-type reference alone in a sequence that quotes a property of
    the dataset reduces to what the parsed syntax of that property reduces
    to, the same descriptors in the same order; with an expansive
    multiplier, to String followed by these descriptors without String. *)
Theorem property_reference_alone `{JSNumber} (cssTypes : list string)
    (syntaxes properties : gmap string string)
    (parse : string → list Object)
    (parse_undefined : option (list Object)) (fuel o : nat) (v : string)
    (m : option MultiplierType) (name syntax : string)
    (ri : list TypeType) :
  exec_property (slice_1_m1 v) = Some name →
  properties !! name = Some syntax →
  typing cssTypes syntaxes properties parse parse_undefined fuel (parse syntax)
  = Returns ri →
  typing cssTypes syntaxes properties parse
    parse_undefined (S fuel) [(o, DataType v m)]
  = Returns (if multiplied m then TString :: List.filter not_String ri
             else ri).
Proof.
  intros Hname Hsyntax Hri. simpl. unfold typingEntity. simpl fst. simpl snd.
  cbn [isComponent]. rewrite shouldIncludeComponent_alone.
  cbn [typingComponent]. rewrite Hname, Hsyntax, Hri. cbn [merge].
  rewrite fallback_then_merge; [reflexivity |].
  eapply typing_distinct, Hri.
Qed.

Lemma property_reference_alone_witness :
  exec_property (slice_1_m1 "<'tint'>") = Some "tint" ∧
  Sample.properties !! "tint" = Some "red | blue" ∧
  Sample.typing 1 (Sample.parse "red | blue")
    = Returns [TStringLiteral "red"; TStringLiteral "blue"] ∧
  Sample.typing 2 Further.plain_tint
    = Returns [TStringLiteral "red"; TStringLiteral "blue"] ∧
  Sample.typing 2 Sample.repeated_tint
    = Returns [TString; TStringLiteral "red"; TStringLiteral "blue"].
Proof.
  assert (exec_property (slice_1_m1 "<'tint'>") = Some "tint") as Hname
    by reflexivity.
  assert (Sample.properties !! "tint" = Some "red | blue") as Hsyntax
    by (vm_compute; reflexivity).
  assert (Sample.typing 1 (Sample.parse "red | blue")
          = Returns [TStringLiteral "red"; TStringLiteral "blue"]) as Hri
    by (vm_compute; reflexivity).
  exact (conj Hname (conj Hsyntax (conj Hri (conj
           (@property_reference_alone JSInt.runtime Sample.cssTypes
              Sample.syntaxes Sample.properties Sample.parse
              Sample.parse_undefined 1 0
              "<'tint'>" None "tint" "red | blue" _ Hname Hsyntax Hri)
           (@property_reference_alone JSInt.runtime Sample.cssTypes
              Sample.syntaxes Sample.properties Sample.parse
              Sample.parse_undefined 1 0
              "<'tint'>" (Sample.mult PlusSign) "tint" "red | blue" _
              Hname Hsyntax Hri))))).
Defined.

(** ** The two scans of the gate *)

Lemma scanRight_S (entities : list Object) (i steps : nat) :
  scanRight entities i (S steps) =
    match entities !! i with
    | Some (o, CombinatorEntity combinator) =>
        if isMandatoryCombinator combinator then
          match nextEntity entities o with
          | Some (_, next) =>
              if isOptionalEntity next then scanRight entities (S i) steps
              else false
          | None => scanRight entities (S i) steps
          end
        else true
    | _ => scanRight entities (S i) steps
    end.
Proof. reflexivity. Qed.

Section Alternation.
Variable entities : list Object.
Hypothesis Hall :
  ∀ o c, In (o, CombinatorEntity c) entities →
         isMandatoryCombinator c = false.

Lemma scanLeft_alternation (n : nat) : scanLeft entities n = true.
Proof.
  induction n as [| n IH]; [reflexivity |].
  rewrite scanLeft_S.
  destruct (entities !! n) as [[o [value m | v m | inner m | c | m]] |] eqn:E;
    try exact IH.
  rewrite (Hall o c); [reflexivity |].
  eapply list_elem_of_In, list_elem_of_lookup_2, E.
Qed.

Lemma scanRight_alternation (steps : nat) :
  ∀ i, scanRight entities i steps = true.
Proof.
  induction steps as [| steps IH]; intros i; [reflexivity |].
  rewrite scanRight_S.
  destruct (entities !! i) as [[o [value m | v m | inner m | c | m]] |] eqn:E;
    try apply IH.
  rewrite (Hall o c); [reflexivity |].
  eapply list_elem_of_In, list_elem_of_lookup_2, E.
Qed.

End Alternation.

(** X8: in a sequence whose combinators are all "|" or "||", the gate
    includes every component. *)
Theorem alternation_includes_all (entities : list Object) (o : nat) :
  (∀ o' c, In (o', CombinatorEntity c) entities →
           isMandatoryCombinator c = false) →
  shouldIncludeComponent entities o = true.
Proof.
  intros Hall. unfold shouldIncludeComponent.
  now rewrite scanLeft_alternation, scanRight_alternation.
Qed.

Lemma alternation_includes_all_witness :
  (∀ o' c, In (o', CombinatorEntity c) Sample.either_or_both →
           isMandatoryCombinator c = false) ∧
  shouldIncludeComponent Sample.either_or_both 0 = true ∧
  shouldIncludeComponent Sample.either_or_both 2 = true.
Proof.
  assert (∀ o' c, In (o', CombinatorEntity c) Sample.either_or_both →
                  isMandatoryCombinator c = false) as Hall.
  { intros o' c [E | [E | [E | []]]]; try discriminate E.
    injection E as _ <-. reflexivity. }
  exact (conj Hall (conj
           (alternation_includes_all Sample.either_or_both 0 Hall)
           (alternation_includes_all Sample.either_or_both 2 Hall))).
Defined.

Section Scans.
Variable entities : list Object.

Lemma blocked_left_pass (n : nat) :
  (∀ o c, entities !! n = Some (o, CombinatorEntity c) →
     isMandatoryCombinator c = true ∧
     ∀ o' previous, previousEntity entities o = Some (o', previous) →
                    isOptionalEntity previous = true) →
  blocked_left entities (S n) ↔ blocked_left entities n.
Proof.
  intros Hpass. split.
  - intros (i & o & c & o' & p & Hi & Hl & Hm & Hp & Ho & Hbetween).
    destruct (Nat.eq_dec i n) as [-> | Hne].
    + destruct (Hpass o c Hl) as [_ Hopt].
      rewrite (Hopt o' p Hp) in Ho. discriminate.
    + exists i, o, c, o', p. repeat split; try assumption; [lia |].
      intros j o'' c' Hj. apply Hbetween. lia.
  - intros (i & o & c & o' & p & Hi & Hl & Hm & Hp & Ho & Hbetween).
    exists i, o, c, o', p. repeat split; try assumption; [lia |].
    intros j o'' c' Hj Hlj.
    destruct (Nat.eq_dec j n) as [-> | Hne].
    + exact (proj1 (Hpass o'' c' Hlj)).
    + apply (Hbetween j o'' c'); [lia | assumption].
Qed.

Lemma scanLeft_false_iff (n : nat) :
  scanLeft entities n = false ↔ blocked_left entities n.
Proof.
  induction n as [| n IH].
  - split; [discriminate |].
    intros (i & o & c & o' & p & Hi & _). lia.
  - rewrite scanLeft_S.
    destruct (entities !! n) as [[o [value m | v m | inner m | c | m]] |] eqn:E;
      try solve [rewrite IH; symmetry; apply blocked_left_pass;
                 intros o0 c0 Heq; rewrite E in Heq; discriminate].
    destruct (isMandatoryCombinator c) eqn:Em.
    + destruct (previousEntity entities o) as [[o' p] |] eqn:Ep.
      * destruct (isOptionalEntity p) eqn:Eo.
        -- rewrite IH. symmetry. apply blocked_left_pass.
           intros o0 c0 Heq. rewrite E in Heq. injection Heq as <- <-.
           split; [exact Em |].
           intros o1 p1 Hp1. rewrite Ep in Hp1. injection Hp1 as -> ->.
           exact Eo.
        -- split; [| reflexivity]. intros _.
           exists n, o, c, o', p. repeat split; try assumption; [lia |].
           intros j o'' c' Hj. lia.
      * rewrite IH. symmetry. apply blocked_left_pass.
        intros o0 c0 Heq. rewrite E in Heq. injection Heq as <- <-.
           split; [exact Em |].
        intros o1 p1 Hp1. rewrite Ep in Hp1. discriminate.
    + split; [discriminate |].
      intros (i & o0 & c0 & o' & p & Hi & Hl & Hm & Hp & Ho & Hbetween).
      destruct (Nat.eq_dec i n) as [-> | Hne].
      * rewrite E in Hl. injection Hl as -> ->. rewrite Em in Hm.
        discriminate.
      * rewrite (Hbetween n o c) in Em; [discriminate | lia | exact E].
Qed.

Lemma blocked_right_pass (i steps : nat) :
  (∀ o c, entities !! i = Some (o, CombinatorEntity c) →
     isMandatoryCombinator c = true ∧
     ∀ o' next, nextEntity entities o = Some (o', next) →
                isOptionalEntity next = true) →
  blocked_right entities i (S steps) ↔ blocked_right entities (S i) steps.
Proof.
  intros Hpass. split.
  - intros (j & o & c & o' & p & Hj & Hl & Hm & Hp & Ho & Hbetween).
    destruct (Nat.eq_dec j i) as [-> | Hne].
    + destruct (Hpass o c Hl) as [_ Hopt].
      rewrite (Hopt o' p Hp) in Ho. discriminate.
    + exists j, o, c, o', p. repeat split; try assumption; try lia.
      intros j' o'' c' Hj'. apply Hbetween. lia.
  - intros (j & o & c & o' & p & Hj & Hl & Hm & Hp & Ho & Hbetween).
    exists j, o, c, o', p. repeat split; try assumption; try lia.
    intros j' o'' c' Hj' Hlj.
    destruct (Nat.eq_dec j' i) as [-> | Hne].
    + exact (proj1 (Hpass o'' c' Hlj)).
    + apply (Hbetween j' o'' c'); [lia | assumption].
Qed.

Lemma scanRight_false_iff (steps : nat) :
  ∀ i, scanRight entities i steps = false ↔ blocked_right entities i steps.
Proof.
  induction steps as [| steps IH]; intros i.
  - split; [discriminate |].
    intros (j & o & c & o' & p & Hj & _). lia.
  - rewrite scanRight_S.
    destruct (entities !! i) as [[o [value m | v m | inner m | c | m]] |] eqn:E;
      try solve [rewrite IH; symmetry; apply blocked_right_pass;
                 intros o0 c0 Heq; rewrite E in Heq; discriminate].
    destruct (isMandatoryCombinator c) eqn:Em.
    + destruct (nextEntity entities o) as [[o' p] |] eqn:Ep.
      * destruct (isOptionalEntity p) eqn:Eo.
        -- rewrite IH. symmetry. apply blocked_right_pass.
           intros o0 c0 Heq. rewrite E in Heq. injection Heq as <- <-.
           split; [exact Em |].
           intros o1 p1 Hp1. rewrite Ep in Hp1. injection Hp1 as -> ->.
           exact Eo.
        -- split; [| reflexivity]. intros _.
           exists i, o, c, o', p. repeat split; try assumption; try lia.
      * rewrite IH. symmetry. apply blocked_right_pass.
        intros o0 c0 Heq. rewrite E in Heq. injection Heq as <- <-.
           split; [exact Em |].
        intros o1 p1 Hp1. rewrite Ep in Hp1. discriminate.
    + split; [discriminate |].
      intros (j & o0 & c0 & o' & p & Hj & Hl & Hm & Hp & Ho & Hbetween).
      destruct (Nat.eq_dec j i) as [-> | Hne].
      * rewrite E in Hl. injection Hl as -> ->. rewrite Em in Hm.
        discriminate.
      * rewrite (Hbetween i o c) in Em; [discriminate | lia | exact E].
Qed.

End Scans.

(** X9: the gate excludes a component exactly when, scanning left from it
    or right from it and stopping at the first "|" or "||", some
    juxtaposition or "&&" has beyond it (found through [indexOf] of the
    combinator) an entity that [isOptionalEntity] rejects. *)
Theorem gate_excludes_iff (entities : list Object) (o : nat) :
  shouldIncludeComponent entities o = false ↔
  blocked_left entities (Z.to_nat (indexOf entities o)) ∨
  blocked_right entities (Z.to_nat (indexOf entities o + 1))
    (List.length entities - Z.to_nat (indexOf entities o + 1)).
Proof.
  unfold shouldIncludeComponent.
  rewrite Bool.andb_false_iff, scanLeft_false_iff, scanRight_false_iff.
  reflexivity.
Qed.

(** X10: a component that sits right after or right before a juxtaposition
    or "&&" whose operand on the other side [isOptionalEntity] rejects is
    excluded by the gate (the combinator and the component being objects
    that occur nowhere earlier in the sequence). *)
Theorem mandatory_neighbor_excludes (entities : list Object)
    (k o_n o_c o : nat) (c : Combinator) (neighbor : EntityType) :
  isMandatoryCombinator c = true →
  isOptionalEntity neighbor = false →
  entities !! S k = Some (o_c, CombinatorEntity c) →
  indexOf entities o_c = Z.of_nat (S k) →
  (entities !! k = Some (o_n, neighbor) →
   indexOf entities o = Z.of_nat (S (S k)) →
   shouldIncludeComponent entities o = false) ∧
  (entities !! S (S k) = Some (o_n, neighbor) →
   indexOf entities o = Z.of_nat k →
   shouldIncludeComponent entities o = false).
Proof.
  intros Hm Hopt Hc Hic. split; intros Hn Hio; unfold shouldIncludeComponent;
    rewrite Hio.
  - rewrite Nat2Z.id, scanLeft_S, Hc, Hm. unfold previousEntity. rewrite Hic.
    replace (Z.of_nat (S k) - 1)%Z with (Z.of_nat k) by lia.
    rewrite at_index_of_nat, Hn. now rewrite Hopt.
  - replace (Z.of_nat k + 1)%Z with (Z.of_nat (S k)) by lia.
    rewrite !Nat2Z.id.
    pose proof (lookup_lt_Some _ _ _ Hc) as Hlt.
    destruct (List.length entities - S k)%nat as [| steps] eqn:Es; [lia |].
    rewrite scanRight_S, Hc, Hm. unfold nextEntity. rewrite Hic.
    replace (Z.of_nat (S k) + 1)%Z with (Z.of_nat (S (S k))) by lia.
    rewrite at_index_of_nat, Hn. rewrite Hopt. apply Bool.andb_false_r.
Qed.

Lemma mandatory_neighbor_excludes_witness :
  shouldIncludeComponent Sample.a_then_optional_b 2 = false ∧
  shouldIncludeComponent Further.optional_and_repeated 0 = false.
Proof.
  exact (conj
    (proj1 (mandatory_neighbor_excludes Sample.a_then_optional_b
              0 0 1 2 Juxtaposition (Sample.kw "a")
              eq_refl eq_refl eq_refl eq_refl) eq_refl eq_refl)
    (proj2 (mandatory_neighbor_excludes Further.optional_and_repeated
              0 2 1 0 DoubleAmpersand (Keyword "b" (Sample.mult PlusSign))
              eq_refl eq_refl eq_refl eq_refl) eq_refl eq_refl)).
Defined.

(** ** The catalog and the keys of the elementary names *)

(** X11: the scalar-type catalog depends on which names are keys of the
    elementary grammar names, not on their order or repetition. *)
Theorem basicDataTypes_by_key_set (cssTypes cssTypes' : list string)
    (syntaxes : gmap string string) :
  (∀ name, name ∈ cssTypes ↔ name ∈ cssTypes') →
  basicDataTypes cssTypes syntaxes = basicDataTypes cssTypes' syntaxes.
Proof.
  intros Hsame. apply map_eq. intros name. unfold basicDataTypes.
  rewrite !basicDataTypes_fold_lookup.
  destruct (decide (name ∈ cssTypes ++ ["hex-color"])) as [Hin | Hnin];
    destruct (decide (name ∈ cssTypes' ++ ["hex-color"])) as [Hin' | Hnin'];
    try reflexivity; exfalso.
  - apply Hnin'. apply elem_of_app in Hin as [Hin | Hin];
      apply elem_of_app; [left; now apply Hsame | now right].
  - apply Hnin. apply elem_of_app in Hin' as [Hin' | Hin'];
      apply elem_of_app; [left; now apply Hsame | now right].
Qed.

Lemma basicDataTypes_by_key_set_witness :
  (∀ name, name ∈ ["length"; "number"; "length"] ↔
           name ∈ ["number"; "length"]) ∧
  basicDataTypes ["length"; "number"; "length"] Sample.syntaxes
  = basicDataTypes ["number"; "length"] Sample.syntaxes.
Proof.
  assert (∀ name : string, name ∈ ["length"; "number"; "length"] ↔
                           name ∈ ["number"; "length"]) as Hsame
    by (intros name; rewrite !elem_of_cons, !elem_of_nil; tauto).
  exact (conj Hsame
           (basicDataTypes_by_key_set _ _ Sample.syntaxes Hsame)).
Defined.

(** ** Reading a data-type reference *)

Lemma substring_prefix (s t : string) :
  String.substring 0 (String.length s) (String.append s t) = s.
Proof.
  induction s as [| a s IH]; simpl.
  - now destruct t.
  - now rewrite IH.
Qed.

Lemma length_snoc (s : string) (d : ascii) :
  String.length (String.append s (String d EmptyString))
  = S (String.length s).
Proof. induction s as [| a s IH]; simpl; [reflexivity | now rewrite IH]. Qed.

(** [slice(1, -1)] takes the brackets off. *)
Lemma slice_1_m1_brackets (c d : ascii) (s : string) :
  slice_1_m1 (String c (String.append s (String d EmptyString))) = s.
Proof.
  unfold slice_1_m1. cbn [String.length]. rewrite length_snoc.
  replace (S (S (String.length s)) - 2)%nat with (String.length s) by lia.
  cbn [String.substring]. apply substring_prefix.
Qed.

Lemma span_unquoted_name (name rest : string) :
  has_quote name = false →
  span_unquoted (String.append name (String "'" rest))
  = (name, String "'" rest).
Proof.
  induction name as [| a name IH]; simpl; [reflexivity |].
  intros Hq. apply Bool.orb_false_iff in Hq as [Ha Hn].
  now rewrite Ha, (IH Hn).
Qed.

Lemma exec_property_unquoted (s : string) :
  has_quote s = false → exec_property s = None.
Proof.
  induction s as [| a s IH]; simpl; [reflexivity |].
  intros Hq. apply Bool.orb_false_iff in Hq as [Ha Hs].
  rewrite Ha. now apply IH.
Qed.

Lemma exec_property_quoted (name rest : string) :
  name ≠ EmptyString → has_quote name = false →
  exec_property (String "'" (String.append name (String "'" rest)))
  = Some name.
Proof.
  intros Hne Hq. cbn [exec_property]. rewrite Ascii.eqb_refl.
  rewrite (span_unquoted_name name rest Hq).
  destruct name; [contradiction | reflexivity].
Qed.

(** X12: a reference [<name>] whose name holds no quote, alone in a
    sequence, reduces to the catalog entry of [name] when [name] is a key of
    the catalog; otherwise the reduction yields no list when [name] is a
    member of [Object.prototype], and is the symbolic descriptor of [name]
    when it is not.  A reference [<'name'>] with a non-empty name without
    quote reduces as the parsed syntax of the property [name] when [name]
    is a key of the dataset (behind String under an expansive multiplier);
    otherwise as [parse(undefined)] in the same way when [name] is a member
    of [Object.prototype], and to String when it is not.  The multiplier
    plays no part for a bare name or an unknown property. *)
Theorem reference_by_name `{JSNumber} (cssTypes : list string)
    (syntaxes properties : gmap string string)
    (parse : string → list Object)
    (parse_undefined : option (list Object)) (fuel o : nat) (name : string)
    (m : option MultiplierType) :
  has_quote name = false →
  typing cssTypes syntaxes properties parse parse_undefined (S fuel)
    [(o, DataType (String "<" (String.append name ">")) m)]
  = match basicDataTypes cssTypes syntaxes !! name with
    | Some basic => Returns [basic_type basic]
    | None => if inherited name then Faults else Returns [TDataType name]
    end ∧
  (name ≠ EmptyString →
   typing cssTypes syntaxes properties parse parse_undefined (S fuel)
     [(o, DataType
            (String "<" (String.append (String "'" (String.append name "'"))
                           ">")) m)]
   = match properties !! name with
     | Some syntax =>
         merge (if multiplied m then addString [] else [])
           (typing cssTypes syntaxes properties parse parse_undefined fuel
              (parse syntax))
     | None =>
         if inherited name then
           match parse_undefined with
           | Some undefined_entities =>
               merge (if multiplied m then addString [] else [])
                 (typing cssTypes syntaxes properties parse parse_undefined
                    fuel undefined_entities)
           | None => Faults
           end
         else Returns [TString]
     end).
Proof.
  intros Hq. split.
  - simpl typing. unfold typingLoop, typingEntity. simpl fst. simpl snd.
    cbn [isComponent]. rewrite shouldIncludeComponent_alone.
    cbn [typingComponent]. rewrite slice_1_m1_brackets.
    rewrite (exec_property_unquoted name Hq).
    destruct (basicDataTypes cssTypes syntaxes !! name) as [[| |] |];
      try reflexivity.
    destruct (inherited name); reflexivity.
  - intros Hne.
    simpl typing. unfold typingLoop, typingEntity. simpl fst. simpl snd.
    cbn [isComponent]. rewrite shouldIncludeComponent_alone.
    cbn [typingComponent]. rewrite slice_1_m1_brackets.
    rewrite (exec_property_quoted name EmptyString Hne Hq).
    destruct (properties !! name) as [syntax |].
    + destruct (merge _ _); reflexivity.
    + destruct (inherited name); [| reflexivity].
      destruct parse_undefined as [undefined_entities |]; [| reflexivity].
      destruct (merge _ _); reflexivity.
Qed.

(** [<length>+] is Length; [<toString>] yields no list; [<'nope'>] is
    String. *)
Lemma reference_by_name_witness :
  has_quote "length" = false ∧
  Sample.typing 1 Sample.repeated_length = Returns [TLength] ∧
  has_quote "toString" = false ∧
  Sample.typing 1 Further.inherited_name = Faults ∧
  has_quote "nope" = false ∧
  "nope" ≠ EmptyString ∧
  Sample.typing 1 Sample.unknown_property = Returns [TString].
Proof.
  assert (has_quote "length" = false) as Hq by reflexivity.
  assert (has_quote "toString" = false) as Hq' by reflexivity.
  assert (has_quote "nope" = false) as Hq'' by reflexivity.
  assert ("nope" ≠ EmptyString) as Hne by discriminate.
  exact (conj Hq (conj
           (proj1 (@reference_by_name JSInt.runtime Sample.cssTypes
                     Sample.syntaxes Sample.properties Sample.parse
                     Sample.parse_undefined
                     0 0 "length" (Sample.mult PlusSign) Hq))
           (conj Hq' (conj
             (proj1 (@reference_by_name JSInt.runtime Sample.cssTypes
                       Sample.syntaxes Sample.properties Sample.parse
                       Sample.parse_undefined 0 0 "toString" None Hq'))
             (conj Hq'' (conj Hne
               (proj2 (@reference_by_name JSInt.runtime Sample.cssTypes
                         Sample.syntaxes Sample.properties Sample.parse
                         Sample.parse_undefined 0 0 "nope" None Hq'')
                  Hne))))))).
Defined.

(** ** Enumerations *)

Section Enumeration.
Context `{JSNumber}.
Variable cssTypes : list string.
Variable syntaxes : gmap string string.
Variable properties : gmap string string.
Variable parse : string → list Object.
Variable parse_undefined : option (list Object).
Variable entities : list Object.

Local Abbreviation typingEntity :=
  (typingEntity cssTypes syntaxes properties parse parse_undefined).
Local Abbreviation typingLoop :=
  (typingLoop cssTypes syntaxes properties parse parse_undefined).

(** Every descriptor is the literal of a keyword of [entities]. *)
Let of_keywords (types : list TypeType) : Prop :=
  ∀ t, In t types →
    ∃ o value m,
      In (o, Keyword value m) entities ∧
      (t = TStringLiteral value ∨ t = TNumericLiteral (js_Number value)).

Lemma typingLoop_enumeration rec (rest : list Object) :
  ∀ types,
    (∀ object, In object rest →
       In object entities ∧ is_enumeration (snd object) = true) →
    of_keywords types →
    ∃ r, typingLoop rec entities rest types = Returns r ∧ of_keywords r.
Proof.
  induction rest as [| [o entity] rest IH]; intros types Hrest Htypes.
  - exists types. split; [reflexivity | assumption].
  - destruct (Hrest (o, entity) (or_introl eq_refl)) as [Hin Henum].
    assert (∃ types', typingEntity rec entities (o, entity) types
                      = Returns types' ∧ of_keywords types')
      as (types' & Hstep & Htypes').
    { unfold typingEntity. simpl in *.
      destruct entity as [value m | v m | inner m | c | m];
        try discriminate.
      - simpl.
        destruct (shouldIncludeComponent entities o); [| eauto].
        destruct (String.eqb _ value).
        + eexists. split; [reflexivity |].
          intros t Ht.
          destruct (addType_cases types (TNumericLiteral (js_Number value)))
            as [E | E]; simpl in E; rewrite E in Ht; [now apply Htypes |].
          apply in_app_or in Ht as [Ht | [<- | []]]; [now apply Htypes |].
          exists o, value, m. auto.
        + eexists. split; [reflexivity |].
          intros t Ht.
          destruct (addType_cases types (TStringLiteral value))
            as [E | E]; simpl in E; rewrite E in Ht; [now apply Htypes |].
          apply in_app_or in Ht as [Ht | [<- | []]]; [now apply Htypes |].
          exists o, value, m. auto.
      - destruct c; try discriminate. simpl. eauto. }
    simpl. rewrite Hstep. apply IH; [| assumption].
    intros object Hobject. apply Hrest. now right.
Qed.

End Enumeration.

(** X13: a sequence of keywords and "|" alone reduces within a single call,
    whatever the dataset, and to literals of its own keywords only: the
    string literal of a keyword's text or the numeric literal of its
    number, never String. *)
Theorem enumeration_reduces_to_literals `{JSNumber} (cssTypes : list string)
    (syntaxes properties : gmap string string)
    (parse : string → list Object)
    (parse_undefined : option (list Object)) (entities : list Object)
    (fuel : nat) :
  (∀ object, In object entities → is_enumeration (snd object) = true) →
  ∃ r,
    typing cssTypes syntaxes properties parse parse_undefined (S fuel) entities
    = Returns r ∧
    ∀ t, In t r →
      t ≠ TString ∧
      ∃ o value m,
        In (o, Keyword value m) entities ∧
        (t = TStringLiteral value ∨ t = TNumericLiteral (js_Number value)).
Proof.
  intros Henum.
  destruct (typingLoop_enumeration cssTypes syntaxes properties parse
    parse_undefined
              entities
              (typing cssTypes syntaxes properties parse
                parse_undefined fuel) entities [])
    as (r & Hr & Hkeys).
  - intros object Hin. split; [assumption | now apply Henum].
  - intros t [].
  - exists r. split; [exact Hr |].
    intros t Ht. destruct (Hkeys t Ht) as (o & value & m & Hin & Hform).
    split; [destruct Hform as [-> | ->]; discriminate |].
    exists o, value, m. auto.
Qed.

Lemma enumeration_reduces_to_literals_witness :
  (∀ object, In object Further.enumeration →
             is_enumeration (snd object) = true) ∧
  ∃ r, Sample.typing 1 Further.enumeration = Returns r ∧
       ∀ t, In t r → t ≠ TString ∧
         ∃ o value m,
           In (o, Keyword value m) Further.enumeration ∧
           (t = TStringLiteral value ∨
            t = @TNumericLiteral JSInt.runtime (JSInt.to_number value)).
Proof.
  assert (∀ object, In object Further.enumeration →
                    is_enumeration (snd object) = true) as Henum.
  { intros object [<- | [<- | [<- | [<- | [<- | []]]]]]; reflexivity. }
  exact (conj Henum
           (@enumeration_reduces_to_literals JSInt.runtime Sample.cssTypes
              Sample.syntaxes Sample.properties Sample.parse
              Sample.parse_undefined
              Further.enumeration 0 Henum)).
Defined.

(** ** Recursion and the gate *)

(** X14: a property whose parsed syntax is a lone reference to the property
    itself is never reduced: a sequence that consists of a reference to it
    does not return, whatever depth of calls is allowed. *)
Theorem self_reference_never_returns `{JSNumber} (cssTypes : list string)
    (syntaxes properties : gmap string string)
    (parse : string → list Object)
    (parse_undefined : option (list Object)) (v name syntax : string)
    (o' : nat) (m' : option MultiplierType) :
  exec_property (slice_1_m1 v) = Some name →
  properties !! name = Some syntax →
  parse syntax = [(o', DataType v m')] →
  ∀ fuel o m,
    typing cssTypes syntaxes properties parse
      parse_undefined fuel [(o, DataType v m)] = Deeper.
Proof.
  intros Hname Hsyntax Hparse.
  induction fuel as [| fuel IH]; intros o m; [reflexivity |].
  simpl. unfold typingEntity. simpl fst. simpl snd. cbn [isComponent].
  rewrite shouldIncludeComponent_alone. cbn [typingComponent].
  rewrite Hname, Hsyntax, Hparse, IH. reflexivity.
Qed.

Lemma self_reference_never_returns_witness :
  exec_property (slice_1_m1 "<'loop'>") = Some "loop" ∧
  Further.cyclic_properties !! "loop" = Some "<'loop'>" ∧
  Further.cyclic_parse "<'loop'>" = [(0, DataType "<'loop'>" None)] ∧
  ∀ fuel o m,
    @typing JSInt.runtime Sample.cssTypes Sample.syntaxes
      Further.cyclic_properties Further.cyclic_parse Sample.parse_undefined fuel
      [(o, DataType "<'loop'>" m)] = Deeper.
Proof.
  assert (exec_property (slice_1_m1 "<'loop'>") = Some "loop") as Hname
    by reflexivity.
  assert (Further.cyclic_properties !! "loop" = Some "<'loop'>") as Hsyntax
    by (vm_compute; reflexivity).
  assert (Further.cyclic_parse "<'loop'>" = [(0, DataType "<'loop'>" None)])
    as Hparse by reflexivity.
  exact (conj Hname (conj Hsyntax (conj Hparse
           (@self_reference_never_returns JSInt.runtime Sample.cssTypes
              Sample.syntaxes Further.cyclic_properties Further.cyclic_parse
              Sample.parse_undefined
              "<'loop'>" "loop" "<'loop'>" 0 None Hname Hsyntax Hparse)))).
Defined.

Section Excluded.
Context `{JSNumber}.
Variable cssTypes : list string.
Variable syntaxes : gmap string string.
Variable properties : gmap string string.
Variable parse : string → list Object.
Variable parse_undefined : option (list Object).

Local Abbreviation typingEntity :=
  (typingEntity cssTypes syntaxes properties parse parse_undefined).
Local Abbreviation typingLoop :=
  (typingLoop cssTypes syntaxes properties parse parse_undefined).

(** An included data-type reference whose bare name is a member of
    [Object.prototype] and no key of the catalog. *)
Let inherited_bare (entities : list Object) (o : nat) (entity : EntityType)
  : Prop :=
  ∃ v m,
    entity = DataType v m ∧
    shouldIncludeComponent entities o = true ∧
    exec_property (slice_1_m1 v) = None ∧
    basicDataTypes cssTypes syntaxes !! slice_1_m1 v = None ∧
    inherited (slice_1_m1 v) = true.

(** The body makes no call for an entity that does not recurse or that the
    gate excludes: it returns a list, or faults on a bare inherited name. *)
Lemma typingEntity_unreduced rec entities o entity types :
  (recurses properties entity = true →
   shouldIncludeComponent entities o = false) →
  (∃ r, typingEntity rec entities (o, entity) types = Returns r) ∨
  (typingEntity rec entities (o, entity) types = Faults ∧
   inherited_bare entities o entity).
Proof.
  intros Ho. unfold typingEntity. simpl fst. simpl snd.
  destruct entity as [value m | v m | inner m | c | m]; simpl in *.
  - left. destruct (shouldIncludeComponent entities o); [| eauto].
    destruct (String.eqb _ value); eauto.
  - destruct (shouldIncludeComponent entities o) eqn:Eg; [| eauto].
    destruct (exec_property (slice_1_m1 v)) as [name |] eqn:En.
    + destruct (properties !! name) as [syntax |] eqn:Ep.
      * assert (true = false) as Habs; [| discriminate Habs].
        apply Ho. apply orb_true_iff. left.
        apply bool_decide_eq_true. eauto.
      * destruct (inherited name) eqn:Ei; [| eauto].
        assert (true = false) as Habs; [| discriminate Habs].
        apply Ho. apply orb_true_r.
    + destruct (basicDataTypes _ _ !! _) eqn:Eb; [eauto |].
      destruct (inherited _) eqn:Ei; [| eauto].
      right. split; [reflexivity |]. exists v, m. auto.
  - left. destruct (shouldIncludeComponent entities o); [| eauto].
    assert (true = false) as Habs by (now apply Ho). discriminate Habs.
  - left. destruct (_ || _); eauto.
  - left. eauto.
Qed.

Lemma typingLoop_unreduced rec entities rest :
  (∀ o entity, In (o, entity) rest →
     recurses properties entity = true →
     shouldIncludeComponent entities o = false) →
  ∀ types,
    typingLoop rec entities rest types ≠ Deeper ∧
    ((∀ o entity, In (o, entity) rest → ¬ inherited_bare entities o entity) →
     ∃ r, typingLoop rec entities rest types = Returns r).
Proof.
  induction rest as [| [o entity] rest IH]; intros Hgate types.
  - simpl. split; [discriminate | eauto].
  - simpl.
    destruct (typingEntity_unreduced rec entities o entity types
                (Hgate o entity (or_introl eq_refl)))
      as [[types' ->] | [-> Hbare]].
    + destruct (IH (fun o' e' Hin => Hgate o' e' (or_intror Hin)) types')
        as [Hsettled Hreturns].
      split; [exact Hsettled |].
      intros Hnone. apply Hreturns.
      intros o' e' Hin. apply Hnone. now right.
    + split; [discriminate |].
      intros Hnone. destruct (Hnone o entity (or_introl eq_refl) Hbare).
Qed.

End Excluded.

(** X15: what the gate excludes is not reduced: a sequence in which the
    gate excludes every group and every reference that quotes a name [in]
    the property dataset (a key of it or a member of [Object.prototype])
    makes no recursive call, whatever the dataset: the first call settles
    the outcome, and it returns a list as soon as the sequence has no
    included reference whose bare name is a member of [Object.prototype]
    and no key of the catalog. *)
Theorem excluded_are_not_reduced `{JSNumber} (cssTypes : list string)
    (syntaxes properties : gmap string string)
    (parse : string → list Object)
    (parse_undefined : option (list Object)) (entities : list Object)
    (fuel : nat) :
  (∀ o entity, In (o, entity) entities →
     recurses properties entity = true →
     shouldIncludeComponent entities o = false) →
  typing cssTypes syntaxes properties parse parse_undefined (S fuel) entities
  ≠ Deeper ∧
  ((∀ o v m, In (o, DataType v m) entities →
      shouldIncludeComponent entities o = true →
      exec_property (slice_1_m1 v) = None →
      basicDataTypes cssTypes syntaxes !! slice_1_m1 v = None →
      inherited (slice_1_m1 v) = false) →
   ∃ r, typing cssTypes syntaxes properties parse parse_undefined (S fuel)
          entities = Returns r).
Proof.
  intros Hgate.
  destruct (typingLoop_unreduced cssTypes syntaxes properties parse
                parse_undefined
              (typing cssTypes syntaxes properties parse parse_undefined fuel)
              entities entities Hgate []) as [Hsettled Hreturns].
  split; [exact Hsettled |].
  intros Hbare. apply Hreturns.
  intros o entity Hin (v & m & -> & Hg & Hn & Hb & Hi).
  rewrite (Hbare o v m Hin Hg Hn Hb) in Hi. discriminate.
Qed.

Lemma excluded_are_not_reduced_witness :
  (∀ o entity, In (o, entity) Further.loop_after_keyword →
     recurses Further.cyclic_properties entity = true →
     shouldIncludeComponent Further.loop_after_keyword o = false) ∧
  (∀ o v m, In (o, DataType v m) Further.loop_after_keyword →
     shouldIncludeComponent Further.loop_after_keyword o = true →
     exec_property (slice_1_m1 v) = None →
     basicDataTypes Sample.cssTypes Sample.syntaxes !! slice_1_m1 v = None →
     inherited (slice_1_m1 v) = false) ∧
  ∃ r, @typing JSInt.runtime Sample.cssTypes Sample.syntaxes
         Further.cyclic_properties Further.cyclic_parse
         Sample.parse_undefined 1 Further.loop_after_keyword = Returns r.
Proof.
  assert (∀ o entity, In (o, entity) Further.loop_after_keyword →
            recurses Further.cyclic_properties entity = true →
            shouldIncludeComponent Further.loop_after_keyword o = false)
    as Hgate.
  { intros o entity [E | [E | [E | []]]]; injection E as <- <-;
      intros Hrec; try discriminate Hrec. reflexivity. }
  assert (∀ o v m, In (o, DataType v m) Further.loop_after_keyword →
            shouldIncludeComponent Further.loop_after_keyword o = true →
            exec_property (slice_1_m1 v) = None →
            basicDataTypes Sample.cssTypes Sample.syntaxes !! slice_1_m1 v
            = None →
            inherited (slice_1_m1 v) = false)
    as Hbare.
  { intros o v m [E | [E | [E | []]]]; try discriminate E.
    injection E as <- <- <-. intros Hg. discriminate Hg. }
  exact (conj Hgate (conj Hbare
           (proj2 (@excluded_are_not_reduced JSInt.runtime Sample.cssTypes
                     Sample.syntaxes Further.cyclic_properties
                     Further.cyclic_parse Sample.parse_undefined
                     Further.loop_after_keyword 0 Hgate) Hbare))).
Defined.

(** ** Names inherited from [Object.prototype] *)

(** X16: a sequence with an included data-type reference whose bare name is
    a member of [Object.prototype] and no key of the catalog returns no
    list, at any depth of calls and whatever else the sequence holds. *)
Theorem inherited_name_never_returns `{JSNumber} (cssTypes : list string)
    (syntaxes properties : gmap string string)
    (parse : string → list Object)
    (parse_undefined : option (list Object)) (entities : list Object)
    (o : nat) (v : string) (m : option MultiplierType) :
  In (o, DataType v m) entities →
  shouldIncludeComponent entities o = true →
  exec_property (slice_1_m1 v) = None →
  basicDataTypes cssTypes syntaxes !! slice_1_m1 v = None →
  inherited (slice_1_m1 v) = true →
  ∀ fuel r,
    typing cssTypes syntaxes properties parse parse_undefined fuel entities
    ≠ Returns r.
Proof.
  intros Hin Hgate Hname Hnone Hown fuel r Hr.
  destruct fuel as [| fuel]; [discriminate Hr |].
  destruct (typing_at _ _ _ _ _ _ _ _ _ Hr Hin)
    as (before & after & Hstep & _).
  rewrite inherited_name_Faults in Hstep by assumption.
  discriminate Hstep.
Qed.

Lemma inherited_name_never_returns_witness :
  In (0, DataType "<toString>" None) Further.inherited_name_or_a ∧
  shouldIncludeComponent Further.inherited_name_or_a 0 = true ∧
  exec_property (slice_1_m1 "<toString>") = None ∧
  basicDataTypes Sample.cssTypes Sample.syntaxes !! slice_1_m1 "<toString>"
  = None ∧
  inherited (slice_1_m1 "<toString>") = true ∧
  ∀ fuel r, Sample.typing fuel Further.inherited_name_or_a ≠ Returns r.
Proof.
  assert (In (0, DataType "<toString>" None) Further.inherited_name_or_a)
    as Hin by (left; reflexivity).
  assert (shouldIncludeComponent Further.inherited_name_or_a 0 = true)
    as Hgate by reflexivity.
  assert (exec_property (slice_1_m1 "<toString>") = None) as Hname
    by reflexivity.
  assert (basicDataTypes Sample.cssTypes Sample.syntaxes
            !! slice_1_m1 "<toString>" = None) as Hnone
    by (vm_compute; reflexivity).
  assert (inherited (slice_1_m1 "<toString>") = true) as Hown by reflexivity.
  exact (conj Hin (conj Hgate (conj Hname (conj Hnone (conj Hown
           (@inherited_name_never_returns JSInt.runtime Sample.cssTypes
              Sample.syntaxes Sample.properties Sample.parse
              Sample.parse_undefined Further.inherited_name_or_a
              0 "<toString>" None Hin Hgate Hname Hnone Hown)))))).
Defined.
